(** * Partner scraper: row extraction and document segmentation

    A shallow embedding of [PartnerScraper] (src/main.py) and the proofs of
    the properties its specification states.

    Modelling conventions.
    - A Python [str] is a [string]; its characters are the code points
      U+0000..U+00FF (type [ascii]), and the tables for [\s], [\w], [\d] and
      [str.lower] are those of the Unicode database on that range.
    - A [dict] is an association list in insertion order (the export relies
      on that order); a [set] is a [gset string].
    - A statement that may raise returns a [result]; [try_except] is the
      [try: ... except Exception: ...] block.
    - The parsed document is a tree of [node]s as BeautifulSoup builds it;
      the HTML parser itself and the serialiser [str(tag)] are library code
      and are parameters of the development.  Calls to [logging] only write
      diagnostics and are left out. *)

From Stdlib Require Import Ascii String NArith Lia.
From stdpp Require Import base option list sets gmap strings sorting.

Open Scope string_scope.
Set Warnings "-register-all".

(* ================================================================== *)
(** ** Characters *)

Module Chr.

Definition code (c : ascii) : N := N_of_ascii c.

Definition between (lo hi : N) (c : ascii) : bool :=
  ((lo <=? code c) && (code c <=? hi))%N.

Definition at_code (n : N) (c : ascii) : bool := (code c =? n)%N.

(** [c in chars], for the characters listed literally in a class. *)
Fixpoint one_of (chars : string) (c : ascii) : bool :=
  match chars with
  | "" => false
  | String a rest => Ascii.eqb c a || one_of rest c
  end.

(** [str.isspace] / [\s]: TAB..CR, FS..US, SPACE, NEL, NBSP. *)
Definition is_space (c : ascii) : bool :=
  between 9 13 c || between 28 31 c
  || at_code 32 c || at_code 133 c || at_code 160 c.

(** [\d]: the decimal digits. *)
Definition is_digit (c : ascii) : bool := between 48 57 c.

Definition is_ascii_upper (c : ascii) : bool := between 65 90 c.
Definition is_ascii_lower (c : ascii) : bool := between 97 122 c.
Definition is_ascii_alpha (c : ascii) : bool :=
  is_ascii_lower c || is_ascii_upper c.

(** [str.isalnum]: letters (including the Latin-1 letters and the ordinal
    indicators), decimal digits, superscript digits and vulgar fractions. *)
Definition is_alnum (c : ascii) : bool :=
  is_digit c || is_ascii_alpha c
  || at_code 170 c || at_code 178 c || at_code 179 c
  || at_code 181 c || at_code 185 c || at_code 186 c
  || between 188 190 c
  || between 192 214 c || between 216 246 c || between 248 255 c.

(** [\w]. *)
Definition is_word (c : ascii) : bool := is_alnum c || at_code 95 c.

(** [str.lower] on one character: A-Z and the Latin-1 capitals. *)
Definition lower (c : ascii) : ascii :=
  if is_ascii_upper c || between 192 214 c || between 216 222 c
  then ascii_of_N (code c + 32)
  else c.

Definition newline : ascii := "010"%char.
Definition tab : ascii := "009"%char.

End Chr.

(* ================================================================== *)
(** ** The [str] methods the scraper calls *)

Module Str.

Definition is_empty (s : string) : bool := String.eqb s "".

Fixpoint all (p : ascii -> bool) (s : string) : bool :=
  match s with
  | "" => true
  | String c r => p c && all p r
  end.

Fixpoint keep (p : ascii -> bool) (s : string) : string :=
  match s with
  | "" => ""
  | String c r => if p c then String c (keep p r) else keep p r
  end.

Fixpoint map (f : ascii -> ascii) (s : string) : string :=
  match s with
  | "" => ""
  | String c r => String (f c) (map f r)
  end.

Fixpoint count (p : ascii -> bool) (s : string) : nat :=
  match s with
  | "" => 0
  | String c r => (if p c then 1 else 0) + count p r
  end.

(** [s.lower()] *)
Definition lower (s : string) : string := map Chr.lower s.

(** [s.lstrip()], [s.rstrip()], [s.strip()] *)
Fixpoint lstrip (s : string) : string :=
  match s with
  | "" => ""
  | String c r => if Chr.is_space c then lstrip r else s
  end.

Fixpoint rstrip (s : string) : string :=
  match s with
  | "" => ""
  | String c r =>
      let r' := rstrip r in
      if Chr.is_space c && is_empty r' then "" else String c r'
  end.

Definition strip (s : string) : string := rstrip (lstrip s).

(** [s.split(sep)] for a one-character separator: one more piece than
    there are separators. *)
Fixpoint split (sep : ascii) (s : string) : list string :=
  match s with
  | "" => [""]
  | String c r =>
      if Ascii.eqb c sep then "" :: split sep r
      else match split sep r with
           | piece :: pieces => String c piece :: pieces
           | [] => [String c ""]
           end
  end.

(** The maximal runs of non-whitespace characters, in order: [s.split()]
    and [re.findall(r"\S+", s)]. *)
Fixpoint runs (s : string) : string * list string :=
  match s with
  | "" => ("", [])
  | String c r =>
      let '(w, ws) := runs r in
      if Chr.is_space c
      then ("", if is_empty w then ws else w :: ws)
      else (String c w, ws)
  end.

Definition words (s : string) : list string :=
  let '(w, ws) := runs s in if is_empty w then ws else w :: ws.

(** [sep.join(l)] *)
Definition join (sep : string) (l : list string) : string :=
  String.concat sep l.

#[global] Arguments join : simpl never.

(** [s.startswith(p)] and [s.startswith((p1, p2))] *)
Definition startswith (p s : string) : bool := String.prefix p s.

Definition startswith_any (ps : list string) (s : string) : bool :=
  existsb (fun p => startswith p s) ps.

(** [sub in s] *)
Fixpoint contains (sub s : string) : bool :=
  String.prefix sub s
  || match s with
     | "" => false
     | String _ r => contains sub r
     end.

(** The longest prefix of [s] whose characters satisfy [p], and the rest. *)
Fixpoint span (p : ascii -> bool) (s : string) : string * string :=
  match s with
  | "" => ("", "")
  | String c r =>
      if p c then let '(a, b) := span p r in (String c a, b) else ("", s)
  end.

Fixpoint drop (n : nat) (s : string) : string :=
  match n, s with
  | S n', String _ r => drop n' r
  | _, _ => s
  end.

End Str.

(* ================================================================== *)
(** ** The [re] calls the scraper makes *)

Module Re.

(** Patterns without groups, enough for the [re.match] of
    [validate_email]. *)
Inductive regex : Type :=
| Void
| Eps
| Class (p : ascii -> bool)
| Seq (r1 r2 : regex)
| Alt (r1 r2 : regex)
| Star (r : regex).

(** [r+] and [r{2,}] *)
Definition Plus (r : regex) : regex := Seq r (Star r).
Definition AtLeast2 (r : regex) : regex := Seq r (Plus r).

(** [$]: the end of the string, or just before a newline that ends it. *)
Definition Dollar : regex := Alt Eps (Class (Ascii.eqb Chr.newline)).

Fixpoint nullable (r : regex) : bool :=
  match r with
  | Void => false
  | Eps => true
  | Class _ => false
  | Seq r1 r2 => nullable r1 && nullable r2
  | Alt r1 r2 => nullable r1 || nullable r2
  | Star _ => true
  end.

Fixpoint deriv (c : ascii) (r : regex) : regex :=
  match r with
  | Void => Void
  | Eps => Void
  | Class p => if p c then Eps else Void
  | Seq r1 r2 =>
      if nullable r1
      then Alt (Seq (deriv c r1) r2) (deriv c r2)
      else Seq (deriv c r1) r2
  | Alt r1 r2 => Alt (deriv c r1) (deriv c r2)
  | Star r1 => Seq (deriv c r1) (Star r1)
  end.

(** Does the whole of [s] match [r]? *)
Fixpoint fullmatch (r : regex) (s : string) : bool :=
  match s with
  | "" => nullable r
  | String c rest => fullmatch (deriv c r) rest
  end.

(** [re.match("^" r "$", s)] as a truth value: the pattern is anchored at
    both ends, so the match is one of the whole string by [r $]. *)
Definition match_anchored (r : regex) (s : string) : bool :=
  fullmatch (Seq r Dollar) s.

(** [re.sub(r"\s+", " ", s)]: every maximal run of whitespace becomes one
    space.  [in_run] tells that the previous character was whitespace. *)
Fixpoint sub_space_runs (in_run : bool) (s : string) : string :=
  match s with
  | "" => ""
  | String c r =>
      if Chr.is_space c
      then if in_run then sub_space_runs true r
           else String " " (sub_space_runs true r)
      else String c (sub_space_runs false r)
  end.

(** [re.sub("[^" cls "]", "", s)]: the characters outside the class go. *)
Definition sub_outside (cls : ascii -> bool) (s : string) : string :=
  Str.keep cls s.

(** Skip [\s*]. *)
Definition skip_spaces (s : string) : string := snd (Str.span Chr.is_space s).

(** [re.search(pattern, s)] tries the pattern at every position from the
    left and returns the first success. *)
Fixpoint search {A} (match_here : string -> option A) (s : string)
  : option A :=
  match match_here s with
  | Some g => Some g
  | None =>
      match s with
      | "" => None
      | String _ r => search match_here r
      end
  end.

(** The pattern of the Siemens batch, tried at the start of [s]: the
    literal sortScore, optional whitespace, a colon, optional whitespace,
    then group 1: one or more digits, an optional dot, any digits.  The
    value is group 1.  Every repetition is followed by a character outside
    its class, so the greedy choice is the only one that can succeed. *)
Definition sort_score_here (s : string) : option string :=
  if String.prefix "sortScore" s then
    match skip_spaces (Str.drop 9 s) with
    | String ":" r =>
        let '(int_part, r1) := Str.span Chr.is_digit (skip_spaces r) in
        if Str.is_empty int_part then None
        else match r1 with
             | String "." r2 =>
                 Some (int_part ++ "." ++ fst (Str.span Chr.is_digit r2))
             | _ => Some int_part
             end
    | _ => None
    end
  else None.

(** The pattern of the location count, tried at the start of [s]: the
    literal Locations and a colon, optional whitespace, then group 1: one
    or more digits.  The value is group 1. *)
Definition locations_here (s : string) : option string :=
  if String.prefix "Locations:" s then
    let digits := fst (Str.span Chr.is_digit (skip_spaces (Str.drop 10 s))) in
    if Str.is_empty digits then None else Some digits
  else None.

End Re.

(* ================================================================== *)
(** ** Exceptions *)

Inductive exception : Type := Exception (message : string).

Inductive result (A : Type) : Type :=
| Ok (value : A)
| Raise (e : exception).

Arguments Ok {A} value.
Arguments Raise {A} e.

#[global] Instance result_ret : MRet result := fun A a => Ok a.

#[global] Instance result_bind : MBind result := fun A B k m =>
  match m with
  | Ok a => k a
  | Raise e => Raise e
  end.

(** [try: body except Exception as e: handler(e)] *)
Definition try_except {A} (body : result A) (handler : exception -> result A)
  : result A :=
  match body with
  | Ok a => Ok a
  | Raise e => handler e
  end.

(* ================================================================== *)
(** ** The document tree of BeautifulSoup *)

Module Bs4.

(** A [Tag] carries its name, its attribute dict and its contents.  A
    [NavigableString] is a piece of text; a [Comment] stands for the
    strings [get_text] leaves out (comments, declarations). *)
Inductive node : Type :=
| NavigableString (text : string)
| Comment (text : string)
| Tag (name : string) (attrs : list (string * string))
      (contents : list node).

(** The place of an element: the child indices from the root. *)
Definition path : Type := list nat.

(** [n] and everything below it, in document order, each with its place. *)
Fixpoint walk (p : path) (n : node) : list (path * node) :=
  (p, n) ::
  match n with
  | Tag _ _ contents =>
      (fix children (i : nat) (cs : list node) : list (path * node) :=
         match cs with
         | [] => []
         | c :: cs' => (walk (p ++ [i]) c ++ children (S i) cs')%list
         end) 0 contents
  | _ => []
  end.

(** The contents [cs] of the tag at [p], from the child of index [i] on:
    the loop inside [walk]. *)
Fixpoint walk_children (p : path) (i : nat) (cs : list node)
  : list (path * node) :=
  match cs with
  | [] => []
  | c :: cs' => (walk (p ++ [i]) c ++ walk_children p (S i) cs')%list
  end.

(** [tag.descendants] *)
Definition descendants_at (p : path) (n : node) : list (path * node) :=
  tail (walk p n).

Definition descendants (n : node) : list node :=
  snd <$> descendants_at [] n.

(** [tag.get(key)] *)
Fixpoint lookup_attr (key : string) (attrs : list (string * string))
  : option string :=
  match attrs with
  | [] => None
  | (k, v) :: rest => if String.eqb k key then Some v else lookup_attr key rest
  end.

Definition get (key : string) (n : node) : option string :=
  match n with
  | Tag _ attrs _ => lookup_attr key attrs
  | _ => None
  end.

(** The keyword filters of [find] / [find_all]. *)

(** [class_=cls]: one of the whitespace-separated classes is [cls]. *)
Definition has_class (cls : string) (n : node) : bool :=
  match get "class" n with
  | Some v => existsb (String.eqb cls) (Str.words v)
  | None => false
  end.

(** [href=True]: the attribute is there. *)
Definition has_attr (key : string) (n : node) : bool :=
  match get key n with
  | Some _ => true
  | None => false
  end.

(** [id=lambda x: x and sub in x] *)
Definition id_contains (sub : string) (n : node) : bool :=
  match get "id" n with
  | Some x => negb (Str.is_empty x) && Str.contains sub x
  | None => false
  end.

Definition is_tag (name : string) (n : node) : bool :=
  match n with
  | Tag name' _ _ => String.eqb name' name
  | _ => false
  end.

(** [tag.find_all(name, filter)] and [tag.find(name, filter)] *)
Definition find_all (name : string) (f : node -> bool) (n : node)
  : list node :=
  List.filter (fun d => is_tag name d && f d) (descendants n).

Definition find (name : string) (f : node -> bool) (n : node)
  : option node :=
  head (find_all name f n).

(** [bool(element)]: a tag is always true, a string is true when it is
    not empty. *)
Definition truthy (n : node) : bool :=
  match n with
  | Tag _ _ _ => true
  | NavigableString s | Comment s => negb (Str.is_empty s)
  end.

(** [element.find(name, class_=...)] as the source calls it.  On a string
    element the method is [str.find], which takes no keyword argument and
    raises [TypeError]. *)
Definition find_method (name : string) (f : node -> bool) (n : node)
  : result (option node) :=
  match n with
  | Tag _ _ _ => mret (find name f n)
  | _ => Raise (Exception "TypeError")
  end.

(** [find_all] keeping the place of each element found. *)
Definition find_all_at (name : string) (f : node -> bool) (n : node)
  : list (path * node) :=
  List.filter (fun d => is_tag name (snd d) && f (snd d))
              (descendants_at [] n).

(** The [NavigableString]s below a tag, in document order. *)
Definition strings (n : node) : list string :=
  omap (fun d => match d with NavigableString s => Some s | _ => None end)
       (descendants n).

(** [tag.stripped_strings] *)
Definition stripped_strings (n : node) : list string :=
  List.filter (fun s => negb (Str.is_empty s)) (Str.strip <$> strings n).

(** [tag.get_text()] and [tag.get_text(strip=True)] *)
Definition get_text (n : node) : string := Str.join "" (strings n).

Definition get_text_strip (n : node) : string :=
  Str.join "" (stripped_strings n).

(** The element at place [p] under [root]. *)
Fixpoint node_at (root : node) (p : path) : option node :=
  match p with
  | [] => Some root
  | i :: p' =>
      match root with
      | Tag _ _ contents =>
          match contents !! i with
          | Some c => node_at c p'
          | None => None
          end
      | _ => None
      end
  end.

(** The places of the ancestors of [p], nearest first. *)
Fixpoint parents (p : path) : list path :=
  match p with
  | [] => []
  | i :: p' => (((i ::.) <$> parents p') ++ [[]])%list
  end.

(** [element.find_parent(name)]: the nearest enclosing tag of that name,
    [None] when there is none. *)
Definition find_parent (root : node) (name : string) (p : path)
  : option node :=
  head (omap (fun q => match node_at root q with
                       | Some a => if is_tag name a then Some a else None
                       | None => None
                       end) (parents p)).

End Bs4.

(* ================================================================== *)
(** ** The scraper *)

Import Bs4.

(** A record is a [dict] from column name to text. *)
Definition record : Type := list (string * string).

Fixpoint dict_get (key : string) (d : record) : option string :=
  match d with
  | [] => None
  | (k, v) :: rest => if String.eqb k key then Some v else dict_get key rest
  end.

(** [sorted(xs)] on strings. *)
Definition sorted (xs : list string) : list string :=
  merge_sort String.le xs.

(** [for x in xs: body], threading the variables the body assigns. *)
Fixpoint for_each {A S} (xs : list A) (body : S -> A -> result S) (st : S)
  : result S :=
  match xs with
  | [] => mret st
  | x :: xs' => st' ← body st x; for_each xs' body st'
  end.

Module PartnerScraper.

(** The keys of [self.required_fields], in the order of [__init__]. *)
Definition required_fields : list string :=
  [ "Number"; "Siemens Batch"; "Name"; "Partner Batch"; "Locations";
    "Office address"; "Contact Name"; "Contact Email";
    "Contact Telephone"; "Contact website"; "Proced Specialization" ].

(** The class of the second substitution of [clean_text]: word
    characters, whitespace and the punctuation listed. *)
Definition clean_class (c : ascii) : bool :=
  Chr.is_word c || Chr.is_space c || Chr.one_of ".,;?!@-_+()/#" c.

Definition clean_text (text : string) : string :=
  if Str.is_empty text then ""
  else
    let text := Re.sub_space_runs false (Str.strip text) in
    let text := Re.sub_outside clean_class text in
    text.

(** The classes and the pattern of [validate_email]. *)
Definition email_local (c : ascii) : bool :=
  Chr.is_ascii_alpha c || Chr.is_digit c || Chr.one_of "._%+-" c.

Definition email_domain (c : ascii) : bool :=
  Chr.is_ascii_alpha c || Chr.is_digit c || Chr.one_of ".-" c.

Definition email_tld (c : ascii) : bool := Chr.is_ascii_alpha c.

Definition email_pattern : Re.regex :=
  Re.Seq (Re.Plus (Re.Class email_local))
 (Re.Seq (Re.Class (Ascii.eqb "@"))
 (Re.Seq (Re.Plus (Re.Class email_domain))
 (Re.Seq (Re.Class (Ascii.eqb "."))
         (Re.AtLeast2 (Re.Class email_tld))))).

Definition validate_email (email : string) : string :=
  if Str.is_empty email then ""
  else
    let email := Str.strip (Str.lower email) in
    if Re.match_anchored email_pattern email then email else "".

Definition address : Type := string * string * string * string.

Definition no_address : address := ("", "", "", "").

(** The body of the [try] block of [extract_address_components], from the
    list of parts on. *)
Definition split_address_parts (address_parts : list string) : address :=
  let street := "" in
  let city := "" in
  let state := "" in
  let country := "" in
  let street :=
    if (1 <=? length address_parts)%nat then nth 0 address_parts ""
    else street in
  let city :=
    if (2 <=? length address_parts)%nat then nth 1 address_parts ""
    else city in
  let '(state, country) :=
    if (3 <=? length address_parts)%nat then
      let state_country := Str.split "," (nth 2 address_parts "") in
      if (length state_country =? 2)%nat
      then (Str.strip (nth 0 state_country ""),
            Str.strip (nth 1 state_country ""))
      else (nth 2 address_parts "", country)
    else (state, country) in
  let country :=
    if (4 <=? length address_parts)%nat && Str.is_empty country
    then nth 3 address_parts "" else country in
  (clean_text street, clean_text city, clean_text state,
   clean_text country).

Definition address_parts (address_span : node) : list string :=
  Str.strip <$>
    List.filter (fun part => negb (Str.is_empty (Str.strip part)))
                (stripped_strings address_span).

Definition extract_address_components (address_td : option node)
  : result address :=
  match address_td with
  | None => mret no_address
  | Some address_td =>
      if negb (truthy address_td) then mret no_address
      else
        try_except
          (address_span ←
             find_method "span"
               (has_class "pl-results-td-contact-plocez__Address__c")
               address_td;
           match address_span with
           | None => mret no_address
           | Some address_span =>
               mret (split_address_parts (address_parts address_span))
           end)
          (fun e => mret no_address)
  end.

(** The [set.add] of the specialization loop, guarded by [if spec:]. *)
Definition add_specialization (specializations : gset string) (li : node)
  : gset string :=
  let spec := clean_text (get_text li) in
  if negb (Str.is_empty spec) then specializations ∪ {[ spec ]}
  else specializations.

(** The statements of [parse_partner_row] after the document is parsed:
    one [let] per assignment, in the order of the source. *)
Definition extract_fields (soup : node) : record :=
  (* Number *)
  let number_tag := find "span" (has_class "pl-results-row-no") soup in
  let number_text :=
    match number_tag with
    | Some number_tag => clean_text (get_text number_tag)
    | None => ""
    end in
  (* Siemens Batch *)
  let hidden_td := find "td" (has_class "sf-hidden") soup in
  let siemens_batch :=
    match hidden_td with
    | Some hidden_td =>
        let hidden_text := get_text_strip hidden_td in
        match Re.search Re.sort_score_here hidden_text with
        | Some group1 => group1
        | None => ""
        end
    | None => ""
    end in
  (* Partner Name *)
  let name_tag := find "a" (has_class "pl-results-partner-name") soup in
  let partner_name :=
    match name_tag with
    | Some name_tag => clean_text (get_text name_tag)
    | None => ""
    end in
  (* Partner Batch *)
  let partner_type_span :=
    find "span" (id_contains "resultsPartnerType") soup in
  let partner_batch :=
    match partner_type_span with
    | Some partner_type_span =>
        let batch_items :=
          find_all "li" (has_class "list-group-item") partner_type_span in
        Str.join ", " ((fun item => clean_text (get_text item))
                         <$> batch_items)
    | None => ""
    end in
  (* Locations *)
  let partner_info_span :=
    find "span" (has_class "pl-results-partner-info") soup in
  let locations_text :=
    match partner_info_span with
    | Some partner_info_span =>
        match find "span" (has_class "pl-results-partner-count")
                   partner_info_span with
        | Some count_span =>
            let text := get_text_strip count_span in
            match Re.search Re.locations_here text with
            | Some group1 => group1
            | None => ""
            end
        | None => ""
        end
    | None => ""
    end in
  (* Office address *)
  let address_span :=
    find "span"
         (has_class "pl-results-td-address-plocez__Mailing_Address__c")
         soup in
  let office_address :=
    match address_span with
    | Some address_span =>
        match find "span" (has_class "pl-results-value") address_span with
        | Some address_detail => clean_text (get_text address_span)
        | None => ""
        end
    | None => ""
    end in
  (* Contact name *)
  let contact_name_span :=
    find "span" (has_class "pl-results-td-contact-plocez__Contact__c")
         soup in
  let contact_name :=
    match contact_name_span with
    | Some contact_name_span =>
        match find "span" (has_class "pl-results-value")
                   contact_name_span with
        | Some contact_detail => clean_text (get_text contact_detail)
        | None => ""
        end
    | None => ""
    end in
  (* Email *)
  let email_span :=
    find "span" (has_class "pl-results-td-contact-plocez__Email__c") soup in
  let contact_email :=
    match email_span with
    | Some email_span =>
        match find "a" (has_attr "href") email_span with
        | Some mailto => validate_email (get_text mailto)
        | None => ""
        end
    | None => ""
    end in
  (* Phone *)
  let phone_span :=
    find "span" (has_class "pl-results-td-contact-plocez__Phone__c") soup in
  let contact_phone :=
    match phone_span with
    | Some phone_span =>
        match find "a" (has_attr "href") phone_span with
        | Some phone_link => clean_text (get_text phone_link)
        | None => ""
        end
    | None => ""
    end in
  (* Website *)
  let website_span :=
    find "span" (has_class "pl-results-td-contact-PLP_Website__c") soup in
  let contact_website :=
    match website_span with
    | Some website_span =>
        match find "a" (has_attr "href") website_span with
        | Some web_link =>
            let href := default "" (get "href" web_link) in
            if Str.startswith_any ["http://"; "https://"] href
            then href else ""
        | None => ""
        end
    | None => ""
    end in
  (* Specializations *)
  let specializations : gset string := ∅ in
  let spec_container :=
    find "span"
         (has_class "pl-results-td-account-Product_Specialization__c")
         soup in
  let specializations :=
    match spec_container with
    | Some spec_container =>
        foldl add_specialization specializations
              (find_all "li" (has_class "list-group-item") spec_container)
    | None => specializations
    end in
  let proced_specialization :=
    Str.join ", " (sorted (elements specializations)) in
  [ ("Number", number_text);
    ("Siemens Batch", siemens_batch);
    ("Name", partner_name);
    ("Partner Batch", partner_batch);
    ("Locations", locations_text);
    ("Office address", office_address);
    ("Contact Name", contact_name);
    ("Contact Email", contact_email);
    ("Contact Telephone", contact_phone);
    ("Contact website", contact_website);
    ("Proced Specialization", proced_specialization) ].

(** [{field: "" for field in self.required_fields}] *)
Definition empty_record : record :=
  (fun field => (field, "")) <$> required_fields.

Section Library.

(** [BeautifulSoup(markup, "html.parser")]: the tree it builds, or the
    exception it raises. *)
Variable BeautifulSoup : string -> result node.

(** [str(tag)]: the markup of a tag. *)
Variable str_of_tag : node -> string.

Definition str_of (o : option node) : string :=
  match o with
  | Some tag => str_of_tag tag
  | None => "None"
  end.

(** The [try] block of [parse_partner_row]. *)
Definition parse_partner_row_body (html_snippet : string)
  : result record :=
  soup ← BeautifulSoup html_snippet;
  mret (extract_fields soup).

Definition parse_partner_row (html_snippet : string) : result record :=
  try_except
    (parse_partner_row_body html_snippet)
    (fun e => mret empty_record).

(** One turn of the loop of [parse_all_partners]. *)
Definition process_row (soup : node) (results : list record)
           (row_num_td : path * node) : result (list record) :=
  try_except
    (let parent_tr := find_parent soup "tr" (fst row_num_td) in
     let row_html := str_of parent_tr in
     row_data ← parse_partner_row row_html;
     mret (results ++ [row_data])%list)
    (fun e => mret results).

Definition parse_all_partners (html_content : string)
  : result (list record) :=
  try_except
    (soup ← BeautifulSoup html_content;
     let partner_rows :=
       find_all_at "td" (has_class "pl-results-td-row-no") soup in
     let results := [] in
     results ← for_each partner_rows (process_row soup) results;
     mret results)
    (fun e => mret []).

End Library.

End PartnerScraper.

(* ================================================================== *)
(** ** The specification's notions *)

Module Spec.

Import PartnerScraper.

(** The eleven fields of a PartnerRecord, and the column each one has in
    the source's dict. *)
Inductive field : Type :=
| Number | SiemensBatch | Name | PartnerBatch | Locations
| OfficeAddress | ContactName | ContactEmail | ContactTelephone
| ContactWebsite | ProcedSpecialization.

Definition fields : list field :=
  [ Number; SiemensBatch; Name; PartnerBatch; Locations; OfficeAddress;
    ContactName; ContactEmail; ContactTelephone; ContactWebsite;
    ProcedSpecialization ].

Definition column (f : field) : string :=
  match f with
  | Number => "Number"
  | SiemensBatch => "Siemens Batch"
  | Name => "Name"
  | PartnerBatch => "Partner Batch"
  | Locations => "Locations"
  | OfficeAddress => "Office address"
  | ContactName => "Contact Name"
  | ContactEmail => "Contact Email"
  | ContactTelephone => "Contact Telephone"
  | ContactWebsite => "Contact website"
  | ProcedSpecialization => "Proced Specialization"
  end.

(** The value of a field in a record; [None] when the field is absent. *)
Definition value (f : field) (r : record) : option string :=
  dict_get (column f) r.

(** The specialization value as C6 words it: the normalised texts of all
    the list items, as a set, sorted and joined. *)
Definition specialization_of_all_items (items : list node) : string :=
  let texts := (fun li => clean_text (get_text li)) <$> items in
  Str.join ", " (sorted (elements (list_to_set texts : gset string))).

(** Document order on places: an element comes before everything inside
    it, and before everything that starts after it ends. *)
Fixpoint comes_before (p q : path) : bool :=
  match p, q with
  | [], [] => false
  | [], _ :: _ => true
  | _ :: _, [] => false
  | i :: p', j :: q' => (i <? j)%nat || ((i =? j)%nat && comes_before p' q')
  end.

Definition doc_before (p q : path) : Prop := comes_before p q = true.

(** The marker of a partner row: the cell of the row number. *)
Definition is_marker (n : node) : bool :=
  is_tag "td" n && has_class "pl-results-td-row-no" n.

(** A link target that starts with the http or the https scheme. *)
Definition has_http_scheme (href : string) : Prop :=
  exists rest, href = "http://" ++ rest \/ href = "https://" ++ rest.

(** The text of the normalisation example:
    Line1, two newlines, two spaces, Line2, a tab, then [!@#$%]. *)
Definition sample_text : string :=
  "Line1" ++ String Chr.newline (String Chr.newline
    ("  Line2" ++ String Chr.tab "!@#$%")).

(** Normalisation in the specification's words: the whitespace runs
    collapsed to single spaces and the ends trimmed (the words of the
    text joined by one space), then the characters outside the allowed
    set removed. *)
Definition clean (s : string) : string :=
  Str.keep clean_class (Str.join " " (Str.words s)).

(** The shape of an accepted address: a local part over
    [a-zA-Z0-9._%+-], an at sign, domain labels over [a-zA-Z0-9.-], a
    dot, and a top-level label of two letters or more. *)
Definition email_shape (email : string) : Prop :=
  exists local_part domain tld : string,
    email = local_part ++ "@" ++ domain ++ "." ++ tld
    /\ local_part <> "" /\ Str.all email_local local_part = true
    /\ domain <> "" /\ Str.all email_domain domain = true
    /\ 2 <= String.length tld /\ Str.all email_tld tld = true.

(** The address split in the specification's words. *)
Definition is_comma (c : ascii) : bool := Ascii.eqb c ",".

Definition before_comma (s : string) : string :=
  fst (Str.span (fun c => negb (is_comma c)) s).

Definition after_comma (s : string) : string :=
  Str.drop 1 (snd (Str.span (fun c => negb (is_comma c)) s)).

Definition split_address (parts : list string) : address :=
  let street := default "" (parts !! 0) in
  let city := default "" (parts !! 1) in
  let '(region, country) :=
    match parts !! 2 with
    | Some third =>
        if (Str.count is_comma third =? 1)%nat
        then (before_comma third, after_comma third)
        else (third, "")
    | None => ("", "")
    end in
  let country :=
    match parts !! 3 with
    | Some fourth => if Str.is_empty country then fourth else country
    | None => country
    end in
  (clean_text street, clean_text city, clean_text region,
   clean_text country).

End Spec.

(** The strings a pattern denotes. *)
Inductive lang : Re.regex -> string -> Prop :=
| lang_eps : lang Re.Eps ""
| lang_class p c : p c = true -> lang (Re.Class p) (String c "")
| lang_seq r1 r2 s1 s2 :
    lang r1 s1 -> lang r2 s2 -> lang (Re.Seq r1 r2) (s1 ++ s2)
| lang_alt_l r1 r2 s : lang r1 s -> lang (Re.Alt r1 r2) s
| lang_alt_r r1 r2 s : lang r2 s -> lang (Re.Alt r1 r2) s
| lang_star_nil r : lang (Re.Star r) ""
| lang_star_cons r c s1 s2 :
    lang r (String c s1) -> lang (Re.Star r) s2 ->
    lang (Re.Star r) (String c s1 ++ s2).

(** [" " ++ w] for every [w], concatenated: what follows the first word in
    [" ".join]. *)
Fixpoint tail_join (ws : list string) : string :=
  match ws with
  | [] => ""
  | w :: ws' => " " ++ w ++ tail_join ws'
  end.

(* ================================================================== *)
(** ** Sample documents *)

Module Fixtures.

Definition text_in (name cls text : string) : node :=
  Tag name [("class", cls)] [NavigableString text].

(** An address cell whose Address element holds three text fragments. *)
Definition address_span : node :=
  Tag "span" [("class", "pl-results-td-contact-plocez__Address__c")]
    [ NavigableString " 123 Main St "; Tag "br" [] [];
      NavigableString "Springfield"; Tag "br" [] [];
      NavigableString " IL, USA"; NavigableString "  " ].

Definition address_td : node :=
  Tag "td" [("class", "pl-results-td-address")] [address_span].

(** A parser that returns a given tree, and one that rejects its
    argument. *)
Definition parser_of (soup : node) : string -> result node :=
  fun _ => Ok soup.

Definition failing_parser : string -> result node :=
  fun _ => Raise (Exception "ParserRejectedMarkup").

Definition list_item (text : string) : node :=
  text_in "li" "list-group-item" text.

Definition link (href text : string) : node :=
  Tag "a" [("href", href)] [NavigableString text].

Definition labelled (cls : string) (contents : list node) : node :=
  Tag "span" [("class", cls)] contents.

(** The cells of a row, without the mailing address and the website. *)
Definition common_cells : list node :=
  [ Tag "td" [("class", "pl-results-td-row-no")]
      [ text_in "span" "pl-results-row-no" " 7 " ];
    Tag "td" [("class", "sf-hidden")]
      [ NavigableString " {name: x, sortScore : 95.5, id: 3} " ];
    Tag "td" []
      [ text_in "a" "pl-results-partner-name" "Acme  Health";
        Tag "span" [("id", "x_resultsPartnerType_7")]
          [ Tag "ul" []
              [ list_item "Gold"; list_item "$"; list_item "Silver" ] ];
        labelled "pl-results-partner-info"
          [ text_in "span" "pl-results-partner-count" "Locations: 12" ] ];
    Tag "td" []
      [ labelled "pl-results-td-contact-plocez__Contact__c"
          [ NavigableString "Contact: ";
            text_in "span" "pl-results-value" "Jane Doe" ];
        labelled "pl-results-td-contact-plocez__Email__c"
          [ link "mailto:jane@acme.com" " Jane.Doe@Acme.COM " ];
        labelled "pl-results-td-contact-plocez__Phone__c"
          [ link "tel:+15550100" "+1 (555) 0100" ] ];
    Tag "td" []
      [ labelled "pl-results-td-account-Product_Specialization__c"
          [ Tag "ul" []
              [ list_item "MRI"; list_item "CT"; list_item " CT ";
                list_item "ct" ] ] ] ].

Definition mailing_address : node :=
  labelled "pl-results-td-address-plocez__Mailing_Address__c"
    [ text_in "span" "pl-results-label" "Address";
      text_in "span" "pl-results-value" " 1 Main St,  Springfield " ].

Definition website (href : string) : node :=
  labelled "pl-results-td-contact-PLP_Website__c" [ link href "Website" ].

(** A row with every element, one for each website target, and a row
    without the mailing address. *)
Definition row (href : string) : node :=
  Tag "[document]" []
    [ Tag "tr" []
        (common_cells
           ++ [ Tag "td" [] [mailing_address]; Tag "td" [] [website href] ])
    ].




(** A row whose specialization container has an item that normalises to
    the empty string. *)
Definition blank_specialization : node :=
  labelled "pl-results-td-account-Product_Specialization__c"
    [ Tag "ul" [] [ list_item "$"; list_item "CT" ] ].

Definition row_with_blank_specialization : node :=
  Tag "[document]" [] [ Tag "tr" [] [ Tag "td" [] [blank_specialization] ] ].

(** A results page: two partner rows inside nested tables, and a row of
    another table that has no marker. *)
Definition marker_cell (number : string) : node :=
  Tag "td" [("class", "pl-results-td-row-no")]
    [ text_in "span" "pl-results-row-no" number ].

Definition page : node :=
  Tag "[document]" []
    [ Tag "table" []
        [ Tag "tr" [] [ Tag "td" [] [ NavigableString "header" ] ];
          Tag "tr" []
            [ marker_cell "1";
              Tag "td" []
                [ Tag "table" []
                    [ Tag "tr" [] [ Tag "td" [] [ NavigableString "x" ] ] ]
                ] ];
          Tag "tr" [] [ marker_cell "2" ] ] ].

(** A serialiser for the samples: the row number of the fragment. *)
Definition row_number_of (tag : node) : string :=
  match find "span" (has_class "pl-results-row-no") tag with
  | Some number_tag => get_text number_tag
  | None => ""
  end.

(** A parser for the samples: the page for the text [page], and for any
    other text a row whose number is that text. *)
Definition sample_parser (html : string) : result node :=
  if String.eqb html "page" then Ok page
  else Ok (Tag "[document]" [] [ Tag "tr" [] [ marker_cell html ] ]).

End Fixtures.

(* ================================================================== *)
(** ** The table of [main] and [format_excel] *)

Module Pandas.

(** [pd.DataFrame(partner_data)] for a list of dicts: one row for each
    dict; the columns are the keys in the order they are first seen; the
    cell of a key that a row lacks is NaN, here [None]. *)
Definition DataFrame : Type := list record.

Definition add_column (seen : list string) (key : string) : list string :=
  if existsb (String.eqb key) seen then seen else (seen ++ [key])%list.

(** [df.columns] *)
Definition columns (df : DataFrame) : list string :=
  foldl (fun seen row => foldl add_column seen row.*1) [] df.

(** [df.iloc[:, i]] for the column named [key]. *)
Definition cells (key : string) (df : DataFrame) : list (option string) :=
  dict_get key <$> df.

(** [df[key]]: [KeyError] when the table has no such column. *)
Definition column (key : string) (df : DataFrame)
  : result (list (option string)) :=
  if existsb (String.eqb key) (columns df) then mret (cells key df)
  else Raise (Exception "KeyError").

(** [series.dropna()] *)
Definition dropna (series : list (option string)) : list string :=
  omap id series.

(** [series.nunique()]: the distinct values that are not NaN. *)
Definition nunique (series : list (option string)) : nat :=
  size (list_to_set (dropna series) : gset string).

(** [series.notna().sum()] *)
Definition notna_sum (series : list (option string)) : nat :=
  length (List.filter (fun v => match v with Some _ => true | None => false end)
                      series).

(** [series.astype(str)] on one cell: NaN prints as [nan]. *)
Definition astype_str (v : option string) : string := default "nan" v.

(** [series.max()]: NaN, here [None], on an empty series. *)
Definition series_max (series : list nat) : option nat :=
  match series with
  | [] => None
  | x :: rest => Some (foldl Nat.max x rest)
  end.

End Pandas.

Module Report.

Import Pandas.

(** The width [format_excel] gives a column: the longest of the header and
    the cells, plus two, capped at fifty.  [max(n, NaN)] is [n]: the
    comparison with NaN is false. *)
Definition adjusted_width (header : string) (series : list (option string))
  : nat :=
  let max_length :=
    match series_max ((fun v => String.length (astype_str v)) <$> series) with
    | Some longest => Nat.max (String.length header) longest
    | None => String.length header
    end in
  Nat.min (max_length + 2) 50.

(** The widths of the second loop of [format_excel], column by column. *)
Definition column_widths (df : DataFrame) : list (string * nat) :=
  (fun header => (header, adjusted_width header (cells header df)))
    <$> columns df.

(** [set(s.strip() for specs in series for s in specs.split(","))] *)
Definition specialization_set (series : list string) : gset string :=
  list_to_set (series ≫= fun specs => Str.strip <$> Str.split "," specs).

(** The [summary] dict of [main], for the table of the partner data. *)
Definition summary (df : DataFrame) : result (list (string * nat)) :=
  let total := length df in
  batches ← column "Partner Batch" df;
  emails ← column "Contact Email" df;
  phones ← column "Contact Telephone" df;
  specializations ← column "Proced Specialization" df;
  mret [ ("Total Partners", total);
         ("Unique Batches", nunique batches);
         ("Partners with Email", notna_sum emails);
         ("Partners with Phone", notna_sum phones);
         ("Unique Specializations",
          size (specialization_set (dropna specializations))) ].

(** What [main] does with the partner data, once parsed: nothing when there
    is none ([if not partner_data: return]), else the table it exports, the
    column widths and the summary. *)
Definition report (partner_data : list record)
  : result (option (DataFrame * list (string * nat) * list (string * nat))) :=
  if bool_decide (partner_data = []) then mret None
  else
    let df : DataFrame := partner_data in
    summary ← summary df;
    mret (Some (df, column_widths df, summary)).

Fixpoint count_of (key : string) (summary : list (string * nat))
  : option nat :=
  match summary with
  | [] => None
  | (k, v) :: rest => if String.eqb k key then Some v else count_of key rest
  end.

End Report.

(** ** Shapes of values *)

Module Shape.

(** A decimal numeral as the Siemens batch pattern captures it: digits,
    then possibly a dot and further digits. *)
Definition decimal (v : string) : Prop :=
  exists int_part frac : string,
    int_part <> "" /\ Str.all Chr.is_digit int_part = true
    /\ Str.all Chr.is_digit frac = true
    /\ (v = int_part \/ v = int_part ++ "." ++ frac).

Definition digits (v : string) : Prop :=
  v <> "" /\ Str.all Chr.is_digit v = true.

(** A character that [clean_text] keeps and that is not whitespace. *)
Definition visible (c : ascii) : bool :=
  PartnerScraper.clean_class c && negb (Chr.is_space c).

(** A character that is not whitespace, or is the space itself. *)
Definition plain (c : ascii) : bool :=
  negb (Chr.is_space c) || Ascii.eqb c " ".

(** A character of an accepted address: the local-part class or the at
    sign. *)
Definition email_char (c : ascii) : bool :=
  PartnerScraper.email_local c || Ascii.eqb c "@".

Definition is_at (c : ascii) : bool := Ascii.eqb c "@".

End Shape.

(* ================================================================== *)
(** * Properties *)

(** ** Strings *)

Section StringFacts.

Implicit Types (s t u : string) (c : ascii) (p : ascii -> bool).

Lemma str_app_nil_l s : "" ++ s = s.
Proof. reflexivity. Qed.

Lemma str_app_cons c s t : String c s ++ t = String c (s ++ t).
Proof. reflexivity. Qed.

Lemma str_app_nil_r s : s ++ "" = s.
Proof. induction s as [|c s IH]; [done|]. by rewrite str_app_cons, IH. Qed.

Lemma str_app_assoc s t u : (s ++ t) ++ u = s ++ (t ++ u).
Proof. induction s as [|c s IH]; [done|]. by rewrite !str_app_cons, IH. Qed.

Lemma str_app_eq_nil s t : s ++ t = "" -> s = "" /\ t = "".
Proof. destruct s; [done|]. by rewrite str_app_cons. Qed.

Lemma str_length_app s t :
  String.length (s ++ t) = String.length s + String.length t.
Proof. induction s as [|c s IH]; [done|]. rewrite str_app_cons. simpl. lia. Qed.

Lemma is_empty_true s : Str.is_empty s = true <-> s = "".
Proof. apply String.eqb_eq. Qed.

Lemma is_empty_false s : Str.is_empty s = false <-> s <> "".
Proof. apply String.eqb_neq. Qed.

Lemma is_empty_cons c s : Str.is_empty (String c s) = false.
Proof. reflexivity. Qed.

(** A non-empty string has a last character. *)
Lemma snoc_inv s : s <> "" -> exists t c, s = t ++ String c "".
Proof.
  induction s as [|a s IH]; [done|]. intros _.
  destruct s as [|b s].
  - by exists "", a.
  - destruct IH as (t & c & Ht); [done|].
    exists (String a t), c. by rewrite str_app_cons, <- Ht.
Qed.

Lemma str_all_app p s t : Str.all p (s ++ t) = Str.all p s && Str.all p t.
Proof.
  induction s as [|c s IH]; [done|].
  rewrite str_app_cons. simpl. rewrite IH. by destruct (p c).
Qed.

Lemma all_keep p s : Str.all p (Str.keep p s) = true.
Proof.
  induction s as [|c s IH]; [done|]. simpl.
  destruct (p c) eqn:Hc; [|done]. simpl. by rewrite Hc.
Qed.

Lemma keep_all p s : Str.all p s = true -> Str.keep p s = s.
Proof.
  induction s as [|c s IH]; [done|]. simpl.
  destruct (p c); [|done]. simpl. intros H. by rewrite IH.
Qed.

Lemma str_keep_app p s t : Str.keep p (s ++ t) = Str.keep p s ++ Str.keep p t.
Proof.
  induction s as [|c s IH]; [done|].
  rewrite str_app_cons. simpl. rewrite IH. by destruct (p c).
Qed.

End StringFacts.

(** ** Trimming *)

Section Strip.

Implicit Types (s t : string) (c : ascii).

Lemma lstrip_nil_iff s : Str.lstrip s = "" <-> Str.all Chr.is_space s = true.
Proof.
  induction s as [|c s IH]; [done|]. simpl.
  destruct (Chr.is_space c); [done|]. simpl. split; discriminate.
Qed.

Lemma rstrip_nil_iff s : Str.rstrip s = "" <-> Str.all Chr.is_space s = true.
Proof.
  induction s as [|c s IH]; [done|]. simpl.
  destruct (Chr.is_space c); simpl.
  - destruct (Str.is_empty (Str.rstrip s)) eqn:He.
    + apply is_empty_true in He. tauto.
    + apply is_empty_false in He. split; [done|]. tauto.
  - split; discriminate.
Qed.

(** What [lstrip] returns is empty or starts with a character that is not
    whitespace. *)
Lemma lstrip_head s :
  Str.lstrip s = ""
  \/ exists c t, Str.lstrip s = String c t /\ Chr.is_space c = false.
Proof.
  induction s as [|c s IH]; [by left|]. simpl.
  destruct (Chr.is_space c) eqn:Hc; [done|]. right. by exists c, s.
Qed.

(** What [rstrip] returns does not end with whitespace. *)
Lemma rstrip_last s t c :
  Str.rstrip s = t ++ String c "" -> Chr.is_space c = false.
Proof.
  revert t. induction s as [|a s IH]; intros t.
  - simpl. by destruct t.
  - simpl.
    destruct (Chr.is_space a && Str.is_empty (Str.rstrip s)) eqn:Hc.
    { by destruct t. }
    destruct t as [|b t]; rewrite ?str_app_nil_l, ?str_app_cons;
      intros [= Ha Hr].
    + subst a. rewrite Hr in Hc. simpl in Hc.
      by rewrite andb_true_r in Hc.
    + eauto.
Qed.

Lemma strip_last s t c :
  Str.strip s = t ++ String c "" -> Chr.is_space c = false.
Proof. apply rstrip_last. Qed.

Lemma all_space_snoc t c :
  Str.all Chr.is_space (t ++ String c "") = true -> Chr.is_space c = true.
Proof.
  rewrite str_all_app. simpl. intros H.
  by destruct (Chr.is_space c), (Str.all Chr.is_space t).
Qed.

Lemma strip_nil_iff s : Str.strip s = "" <-> Str.all Chr.is_space s = true.
Proof.
  unfold Str.strip. rewrite rstrip_nil_iff. split.
  - intros H. apply lstrip_nil_iff.
    destruct (lstrip_head s) as [->|(c & t & Hs & Hc)]; [done|].
    rewrite Hs in H. simpl in H. by rewrite Hc in H.
  - intros H. apply lstrip_nil_iff in H. by rewrite H.
Qed.

End Strip.

(** ** Whitespace normalisation *)

Section Normalise.

Implicit Types (s t : string) (c : ascii) (ws : list string).

Lemma join_cons w ws : Str.join " " (w :: ws) = w ++ tail_join ws.
Proof.
  revert w. induction ws as [|x ws IH]; intros w.
  - simpl. by rewrite str_app_nil_r.
  - change (Str.join " " (w :: x :: ws))
      with (w ++ " " ++ Str.join " " (x :: ws)).
    by rewrite IH.
Qed.

Lemma sub_space_runs_nil s : Re.sub_space_runs false s = "" -> s = "".
Proof. destruct s as [|c s]; [done|]. simpl. by destruct (Chr.is_space c). Qed.

Lemma words_cons_space c s :
  Chr.is_space c = true -> Str.words (String c s) = Str.words s.
Proof.
  intros Hc. unfold Str.words. simpl.
  destruct (Str.runs s) as [w ws]. by rewrite Hc.
Qed.

Lemma words_cons_word c s :
  Chr.is_space c = false ->
  Str.words (String c s)
  = String c (fst (Str.runs s)) :: snd (Str.runs s).
Proof.
  intros Hc. unfold Str.words. simpl.
  destruct (Str.runs s) as [w ws]. by rewrite Hc.
Qed.

Lemma words_lstrip s : Str.words (Str.lstrip s) = Str.words s.
Proof.
  induction s as [|c s IH]; [done|]. simpl.
  destruct (Chr.is_space c) eqn:Hc; [|done].
  by rewrite words_cons_space.
Qed.

(** The substitution after [rstrip], in both states of the scan. *)
Lemma sub_space_runs_rstrip s :
  Re.sub_space_runs false (Str.rstrip s)
  = fst (Str.runs s) ++ tail_join (snd (Str.runs s))
  /\ Re.sub_space_runs true (Str.rstrip s) = Str.join " " (Str.words s).
Proof.
  induction s as [|c s [IHf IHt]]; [done|].
  destruct (Chr.is_space c) eqn:Hc.
  - rewrite words_cons_space by done.
    simpl. rewrite Hc. simpl.
    unfold Str.words in *. destruct (Str.runs s) as [w ws]. simpl in *.
    destruct (Str.is_empty (Str.rstrip s)) eqn:He.
    + apply is_empty_true in He. rewrite He in *. simpl in *.
      symmetry in IHf. apply str_app_eq_nil in IHf as [-> Hws].
      destruct ws; [done|]. by simpl in Hws.
    + apply is_empty_false in He. simpl. rewrite Hc. split; [|done].
      rewrite IHt.
      destruct (Str.is_empty w) eqn:Hw.
      * apply is_empty_true in Hw. subst w.
        destruct ws as [|x ws].
        { exfalso. apply He. by apply sub_space_runs_nil. }
        by rewrite join_cons.
      * by rewrite join_cons.
  - rewrite words_cons_word by done.
    simpl. rewrite Hc. simpl. rewrite Hc.
    destruct (Str.runs s) as [w ws]. simpl in *.
    rewrite join_cons, IHf. by rewrite str_app_cons.
Qed.

(** [re.sub(r"\s+", " ", s.strip())] is [" ".join(s.split())]. *)
Lemma sub_space_runs_strip s :
  Re.sub_space_runs false (Str.strip s) = Str.join " " (Str.words s).
Proof.
  unfold Str.strip. rewrite <- (words_lstrip s).
  destruct (lstrip_head s) as [->|(c & t & -> & Hc)]; [done|].
  destruct (sub_space_runs_rstrip (String c t)) as [-> _].
  rewrite words_cons_word by done. simpl. rewrite Hc.
  destruct (Str.runs t) as [w ws]. simpl. by rewrite join_cons.
Qed.

Lemma clean_text_words s : PartnerScraper.clean_text s = Spec.clean s.
Proof.
  unfold PartnerScraper.clean_text, Spec.clean.
  destruct (Str.is_empty s) eqn:He.
  - apply is_empty_true in He. by subst s.
  - unfold Re.sub_outside. by rewrite sub_space_runs_strip.
Qed.

Lemma runs_all_space s :
  Str.all Chr.is_space s = true -> Str.runs s = ("", []).
Proof.
  induction s as [|c s IH]; [done|]. simpl.
  destruct (Chr.is_space c); [|done]. simpl. intros H. by rewrite IH.
Qed.

Lemma runs_rstrip s : Str.runs (Str.rstrip s) = Str.runs s.
Proof.
  induction s as [|c s IH]; [done|]. simpl.
  destruct (Chr.is_space c) eqn:Hc; simpl.
  - destruct (Str.is_empty (Str.rstrip s)) eqn:He.
    + apply is_empty_true, rstrip_nil_iff in He.
      rewrite (runs_all_space s He). reflexivity.
    + simpl. by rewrite IH, Hc.
  - by rewrite IH, ?Hc.
Qed.

Lemma words_strip s : Str.words (Str.strip s) = Str.words s.
Proof.
  unfold Str.strip, Str.words at 1. rewrite runs_rstrip.
  apply words_lstrip.
Qed.

(** Trimming first changes nothing: [clean_text] trims itself. *)
Lemma clean_text_strip s :
  PartnerScraper.clean_text (Str.strip s) = PartnerScraper.clean_text s.
Proof.
  rewrite !clean_text_words. unfold Spec.clean. by rewrite words_strip.
Qed.

(** The words have no whitespace in them and none is empty. *)
Lemma runs_wf s :
  Str.all (fun c => negb (Chr.is_space c)) (fst (Str.runs s)) = true
  /\ Forall (fun w => w <> ""
                      /\ Str.all (fun c => negb (Chr.is_space c)) w = true)
            (snd (Str.runs s)).
Proof.
  induction s as [|c s [IHw IHws]]; [by split|]. simpl.
  destruct (Str.runs s) as [w ws]. simpl in *.
  destruct (Chr.is_space c) eqn:Hc; simpl.
  - split; [done|]. destruct (Str.is_empty w) eqn:Hw; [done|].
    apply is_empty_false in Hw. by constructor.
  - by rewrite Hc.
Qed.

Lemma words_wf s :
  Forall (fun w => w <> ""
                   /\ Str.all (fun c => negb (Chr.is_space c)) w = true)
         (Str.words s).
Proof.
  unfold Str.words. destruct (runs_wf s) as [Hw Hws].
  destruct (Str.runs s) as [w ws]. simpl in *.
  destruct (Str.is_empty w) eqn:He; [done|].
  apply is_empty_false in He. by constructor.
Qed.

End Normalise.

(** *** C3 *)

(** C3, the example as stated: the specification gives [Line1 Line2 !@] for
    the sample text, but [#] is in the allowed set and stays. *)
Lemma clean_text_sample_not_as_stated :
  PartnerScraper.clean_text Spec.sample_text <> "Line1 Line2 !@".
Proof. vm_compute. discriminate. Qed.

(** C3, amended: for every string, [clean_text] collapses the whitespace
    runs to single spaces and trims the ends, then removes every character
    that is not alphanumeric, underscore, whitespace or one of
    [. , ; ? ! @ - _ + ( ) / #]; every character of the result is in that
    set; and the sample text yields [Line1 Line2 !@#]. *)
Theorem clean_text_normalises :
  (forall text : string,
      PartnerScraper.clean_text text = Spec.clean text
      /\ Str.all PartnerScraper.clean_class (PartnerScraper.clean_text text)
         = true)
  /\ PartnerScraper.clean_text Spec.sample_text = "Line1 Line2 !@#".
Proof.
  split; [|by vm_compute].
  intros text. split; [apply clean_text_words|].
  rewrite clean_text_words. apply all_keep.
Qed.

(** ** Pattern matching *)

Section Matching.

Implicit Types (r : Re.regex) (s t : string) (c : ascii).

Lemma lang_void_inv s : lang Re.Void s -> False.
Proof. inversion 1. Qed.

Lemma lang_eps_inv s : lang Re.Eps s -> s = "".
Proof. by inversion 1. Qed.

Lemma lang_class_inv p s :
  lang (Re.Class p) s -> exists c, s = String c "" /\ p c = true.
Proof. inversion 1; subst. eauto. Qed.

Lemma lang_seq_inv r1 r2 s :
  lang (Re.Seq r1 r2) s ->
  exists s1 s2, s = s1 ++ s2 /\ lang r1 s1 /\ lang r2 s2.
Proof. inversion 1; subst. eauto. Qed.

Lemma lang_alt_inv r1 r2 s : lang (Re.Alt r1 r2) s -> lang r1 s \/ lang r2 s.
Proof. inversion 1; subst; auto. Qed.

Lemma lang_star_cons_inv r c s :
  lang (Re.Star r) (String c s) ->
  exists s1 s2, s = s1 ++ s2 /\ lang r (String c s1) /\ lang (Re.Star r) s2.
Proof.
  inversion 1 as [| | | | | |r' a s1 s2 H1 H2 Hr]; simplify_eq. eauto.
Qed.

Lemma nullable_lang r : Re.nullable r = true <-> lang r "".
Proof.
  induction r as [| |p|r1 IH1 r2 IH2|r1 IH1 r2 IH2|r IH]; simpl.
  - split; [done|]. by intros ?%lang_void_inv.
  - split; [constructor|done].
  - split; [done|]. by intros (c & ? & _)%lang_class_inv.
  - rewrite andb_true_iff, IH1, IH2. split.
    + intros [H1 H2]. by apply (lang_seq _ _ "" "").
    + intros (s1 & s2 & Heq & H1 & H2)%lang_seq_inv.
      symmetry in Heq. by apply str_app_eq_nil in Heq as [-> ->].
  - rewrite orb_true_iff, IH1, IH2. split.
    + intros [H|H]; [by apply lang_alt_l | by apply lang_alt_r].
    + apply lang_alt_inv.
  - split; [constructor|done].
Qed.

(** A string of [r1 r2] that starts with [c] takes [c] from [r1], or
    [r1] matches the empty string and [c] comes from [r2]. *)
Lemma lang_seq_cons r1 r2 c s :
  lang (Re.Seq r1 r2) (String c s) <->
  (exists s1 s2, s = s1 ++ s2 /\ lang r1 (String c s1) /\ lang r2 s2)
  \/ (lang r1 "" /\ lang r2 (String c s)).
Proof.
  split.
  - intros (s1 & s2 & Heq & H1 & H2)%lang_seq_inv.
    destruct s1 as [|a s1].
    + right. rewrite str_app_nil_l in Heq. by subst.
    + rewrite str_app_cons in Heq. injection Heq as -> ->.
      left. by exists s1, s2.
  - intros [(s1 & s2 & -> & H1 & H2)|[H1 H2]].
    + rewrite <- str_app_cons. by constructor.
    + rewrite <- (str_app_nil_l (String c s)). by constructor.
Qed.

Lemma deriv_lang r c s : lang (Re.deriv c r) s <-> lang r (String c s).
Proof.
  revert s.
  induction r as [| |p|r1 IH1 r2 IH2|r1 IH1 r2 IH2|r IH]; intros s; simpl.
  - split; by intros ?%lang_void_inv.
  - split; [by intros ?%lang_void_inv|]. by intros ?%lang_eps_inv.
  - destruct (p c) eqn:Hp.
    + split.
      * intros ->%lang_eps_inv. by constructor.
      * intros (a & [= -> ->] & _)%lang_class_inv. constructor.
    + split; [by intros ?%lang_void_inv|].
      intros (a & [= -> ->] & ?)%lang_class_inv. congruence.
  - rewrite lang_seq_cons.
    destruct (Re.nullable r1) eqn:Hn.
    + split.
      * intros [H|H]%lang_alt_inv.
        -- apply lang_seq_inv in H as (s1 & s2 & -> & H1 & H2).
           left. exists s1, s2. by rewrite <- IH1.
        -- right. split; [by apply nullable_lang|by apply IH2].
      * intros [(s1 & s2 & -> & H1 & H2)|[H1 H2]].
        -- apply lang_alt_l. constructor; [by apply IH1|done].
        -- apply lang_alt_r. by apply IH2.
    + split.
      * intros (s1 & s2 & -> & H1 & H2)%lang_seq_inv.
        left. exists s1, s2. by rewrite <- IH1.
      * intros [(s1 & s2 & -> & H1 & H2)|[H1 H2]].
        -- constructor; [by apply IH1|done].
        -- apply nullable_lang in H1. congruence.
  - split.
    + intros [H|H]%lang_alt_inv;
        [apply lang_alt_l; by apply IH1|apply lang_alt_r; by apply IH2].
    + intros [H|H]%lang_alt_inv;
        [apply lang_alt_l; by apply IH1|apply lang_alt_r; by apply IH2].
  - split.
    + intros (s1 & s2 & -> & H1 & H2)%lang_seq_inv.
      rewrite <- str_app_cons. constructor; [by apply IH|done].
    + intros (s1 & s2 & -> & H1 & H2)%lang_star_cons_inv.
      constructor; [by apply IH|done].
Qed.

(** The matcher decides membership. *)
Lemma fullmatch_lang r s : Re.fullmatch r s = true <-> lang r s.
Proof.
  revert r. induction s as [|c s IH]; intros r; simpl.
  - apply nullable_lang.
  - by rewrite IH, deriv_lang.
Qed.

End Matching.

(** ** The e-mail pattern *)

Section Email.

Import PartnerScraper.
Implicit Types (s t : string) (c : ascii) (p : ascii -> bool).

Lemma lang_char c s : lang (Re.Class (Ascii.eqb c)) s <-> s = String c "".
Proof.
  split.
  - intros (a & -> & Ha)%lang_class_inv. apply Ascii.eqb_eq in Ha. by subst.
  - intros ->. constructor. apply Ascii.eqb_refl.
Qed.

Lemma lang_class_cons p c s :
  lang (Re.Class p) (String c s) <-> s = "" /\ p c = true.
Proof.
  split.
  - by intros (a & [= -> ->] & Ha)%lang_class_inv.
  - intros [-> Hc]. by constructor.
Qed.

Lemma lang_star_class p s :
  lang (Re.Star (Re.Class p)) s <-> Str.all p s = true.
Proof.
  induction s as [|c s IH]; simpl.
  - split; [done|constructor].
  - rewrite andb_true_iff, <- IH. split.
    + intros (s1 & s2 & -> & H1 & H2)%lang_star_cons_inv.
      apply lang_class_cons in H1 as [-> Hc]. by rewrite str_app_nil_l.
    + intros [Hc Hs]. apply (lang_star_cons _ c "" s); [|done].
      by constructor.
Qed.

Lemma lang_plus_class p s :
  lang (Re.Plus (Re.Class p)) s <-> s <> "" /\ Str.all p s = true.
Proof.
  unfold Re.Plus. split.
  - intros (s1 & s2 & -> & H1 & H2)%lang_seq_inv.
    apply lang_class_inv in H1 as (c & -> & Hc).
    apply lang_star_class in H2.
    rewrite str_app_cons, str_app_nil_l. simpl. by rewrite Hc, H2.
  - destruct s as [|c s]; [by intros [? _]|]. simpl.
    intros [_ [Hc Hs]%andb_true_iff].
    apply (lang_seq _ _ (String c "") s); [by constructor|].
    by apply lang_star_class.
Qed.

Lemma lang_at_least2_class p s :
  lang (Re.AtLeast2 (Re.Class p)) s
  <-> 2 <= String.length s /\ Str.all p s = true.
Proof.
  unfold Re.AtLeast2. split.
  - intros (s1 & s2 & -> & H1 & H2)%lang_seq_inv.
    apply lang_class_inv in H1 as (c & -> & Hc).
    apply lang_plus_class in H2 as [Hne Hs].
    rewrite str_app_cons, str_app_nil_l. simpl. rewrite Hc, Hs.
    split; [|done]. destruct s2; [done|simpl; lia].
  - destruct s as [|c s]; simpl; [intros [? _]; lia|].
    intros [Hlen [Hc Hs]%andb_true_iff].
    apply (lang_seq _ _ (String c "") s); [by constructor|].
    apply lang_plus_class. split; [|done].
    destruct s; [simpl in Hlen; lia|done].
Qed.

(** The strings of the pattern are the strings of the stated shape. *)
Lemma lang_email_pattern s : lang email_pattern s <-> Spec.email_shape s.
Proof.
  unfold email_pattern, Spec.email_shape. split.
  - intros (l & s1 & -> & Hl & H1)%lang_seq_inv.
    apply lang_seq_inv in H1 as (a & s2 & -> & Ha & H2).
    apply lang_seq_inv in H2 as (d & s3 & -> & Hd & H3).
    apply lang_seq_inv in H3 as (b & t & -> & Hb & Ht).
    apply lang_char in Ha as ->. apply lang_char in Hb as ->.
    apply lang_plus_class in Hl as [? ?].
    apply lang_plus_class in Hd as [? ?].
    apply lang_at_least2_class in Ht as [? ?].
    by exists l, d, t.
  - intros (l & d & t & -> & ? & ? & ? & ? & ? & ?).
    constructor; [by apply lang_plus_class|].
    constructor; [by apply lang_char|].
    constructor; [by apply lang_plus_class|].
    constructor; [by apply lang_char|].
    by apply lang_at_least2_class.
Qed.

(** Anchored at both ends, a pattern matches the strings it denotes and
    those followed by one final newline. *)
Lemma match_anchored_lang r s :
  Re.match_anchored r s = true
  <-> lang r s \/ exists t, s = t ++ String Chr.newline "" /\ lang r t.
Proof.
  unfold Re.match_anchored, Re.Dollar. rewrite fullmatch_lang. split.
  - intros (s1 & s2 & -> & H1 & [H2|H2]%lang_alt_inv)%lang_seq_inv.
    + apply lang_eps_inv in H2 as ->. left. by rewrite str_app_nil_r.
    + apply lang_char in H2 as ->. right. by exists s1.
  - intros [H|(t & -> & H)].
    + rewrite <- (str_app_nil_r s). constructor; [done|].
      apply lang_alt_l. constructor.
    + constructor; [done|]. apply lang_alt_r. by apply lang_char.
Qed.

(** After [strip] there is no final newline for [$] to skip. *)
Lemma match_anchored_strip r s :
  Re.match_anchored r (Str.strip s) = true <-> lang r (Str.strip s).
Proof.
  rewrite match_anchored_lang. split; [|by left].
  intros [H|(t & Ht & _)]; [done|].
  by apply strip_last in Ht.
Qed.

End Email.

(** *** C4 *)

(** C4: [validate_email] lower-cases and trims its argument; when the
    result has the shape local-part, at sign, domain labels, dot, top-level
    label of two or more letters (over the character classes of the
    pattern) it is returned, and otherwise the empty string is; so
    [Jane.Doe@Example.COM] gives [jane.doe@example.com] and [not-an-email]
    gives the empty string. *)
Theorem validate_email_accepts_shape :
  (forall email : string,
      let cleaned := Str.strip (Str.lower email) in
      (Spec.email_shape cleaned
       /\ PartnerScraper.validate_email email = cleaned)
      \/ (~ Spec.email_shape cleaned
          /\ PartnerScraper.validate_email email = ""))
  /\ PartnerScraper.validate_email "Jane.Doe@Example.COM"
     = "jane.doe@example.com"
  /\ PartnerScraper.validate_email "not-an-email" = "".
Proof.
  split; [|by vm_compute].
  intros email cleaned. unfold PartnerScraper.validate_email.
  fold cleaned.
  destruct (Str.is_empty email) eqn:He.
  - apply is_empty_true in He. subst email. right. split; [|done].
    intros (l & d & t & Heq & _). subst cleaned.
    by destruct l.
  - destruct (Re.match_anchored PartnerScraper.email_pattern cleaned) eqn:Hm.
    + left. split; [|done].
      apply lang_email_pattern. by apply match_anchored_strip.
    + right. split; [|done]. intros Hs%lang_email_pattern.
      apply match_anchored_strip in Hs. subst cleaned. congruence.
Qed.

(** ** Splitting *)

Section Split.

Implicit Types (s t : string) (c sep : ascii) (p : ascii -> bool).

Lemma span_app p s : fst (Str.span p s) ++ snd (Str.span p s) = s.
Proof.
  induction s as [|c s IH]; [done|]. simpl.
  destruct (p c); [|done].
  destruct (Str.span p s) as [a b]. simpl in *.
  by rewrite str_app_cons, IH.
Qed.

Lemma split_length sep s :
  length (Str.split sep s) = S (Str.count (fun c => Ascii.eqb c sep) s).
Proof.
  induction s as [|c s IH]; [done|]. simpl.
  destruct (Ascii.eqb c sep); simpl; [by rewrite IH|].
  destruct (Str.split sep s); simpl in *; lia.
Qed.

Lemma split_no_sep sep s :
  Str.count (fun c => Ascii.eqb c sep) s = 0 -> Str.split sep s = [s].
Proof.
  induction s as [|c s IH]; [done|]. simpl.
  destruct (Ascii.eqb c sep); [done|]. simpl.
  intros H. by rewrite IH.
Qed.

(** With exactly one comma, [split] gives the text before it and the
    text after it. *)
Lemma split_one_comma s :
  Str.count Spec.is_comma s = 1 ->
  Str.split "," s = [Spec.before_comma s; Spec.after_comma s].
Proof.
  unfold Spec.before_comma, Spec.after_comma, Spec.is_comma.
  induction s as [|c s IH]; [done|]. simpl.
  destruct (Ascii.eqb c ","); simpl.
  - intros [= H]. by rewrite split_no_sep.
  - intros H. rewrite IH by done.
    by destruct (Str.span _ s).
Qed.

Lemma after_comma_suffix s :
  Str.count Spec.is_comma s = 1 ->
  s = Spec.before_comma s ++ String "," (Spec.after_comma s).
Proof.
  unfold Spec.before_comma, Spec.after_comma, Spec.is_comma.
  induction s as [|c s IH]; [done|]. simpl.
  destruct (Ascii.eqb c ",") eqn:Hc; simpl.
  - intros _. apply Ascii.eqb_eq in Hc. by subst.
  - intros H. apply IH in H.
    destruct (Str.span _ s) as [a b]. simpl in *.
    by rewrite str_app_cons, <- H.
Qed.

(** In a trimmed string the text after the comma is empty or has a
    character that is not whitespace. *)
Lemma after_comma_strip x :
  Str.count Spec.is_comma (Str.strip x) = 1 ->
  Str.is_empty (Str.strip (Spec.after_comma (Str.strip x)))
  = Str.is_empty (Spec.after_comma (Str.strip x)).
Proof.
  intros H. apply after_comma_suffix in H.
  destruct (Spec.after_comma (Str.strip x)) as [|a t] eqn:Ha; [done|].
  destruct (snoc_inv (String a t)) as (u & c & Hu); [done|].
  rewrite Hu, <- str_app_cons, <- str_app_assoc in H.
  apply strip_last in H.
  rewrite is_empty_cons. apply is_empty_false. intros Hn.
  apply strip_nil_iff in Hn. rewrite Hu in Hn.
  apply all_space_snoc in Hn. congruence.
Qed.

End Split.

(** ** The address components *)

Section Address.

Import PartnerScraper.

(** On trimmed parts the source's split is the specification's. *)
Lemma split_address_parts_spec (parts : list string) :
  Forall (fun part => exists x, part = Str.strip x) parts ->
  split_address_parts parts = Spec.split_address parts.
Proof.
  intros Hparts. unfold split_address_parts, Spec.split_address.
  destruct parts as [|p0 [|p1 [|p2 rest]]]; try done.
  apply Forall_cons in Hparts as [_ Hparts].
  apply Forall_cons in Hparts as [_ Hparts].
  apply Forall_cons in Hparts as [[x ->] _].
  change (nth 2 (p0 :: p1 :: Str.strip x :: rest) "") with (Str.strip x).
  change ((p0 :: p1 :: Str.strip x :: rest) !! 2) with (Some (Str.strip x)).
  change ((p0 :: p1 :: Str.strip x :: rest) !! 3) with (rest !! 0).
  change (nth 3 (p0 :: p1 :: Str.strip x :: rest) "") with (nth 0 rest "").
  cbn [length Nat.leb nth lookup list_lookup default from_option id].
  rewrite split_length. fold Spec.is_comma. cbn [Nat.eqb].
  destruct (Str.count Spec.is_comma (Str.strip x) =? 1)%nat eqn:Hn.
  - apply Nat.eqb_eq in Hn.
    rewrite (split_one_comma _ Hn). cbn [nth].
    rewrite (after_comma_strip _ Hn).
    destruct rest as [|p3 rest];
      cbn [length Nat.leb andb lookup list_lookup nth].
    + by rewrite !clean_text_strip.
    + destruct (Str.is_empty (Spec.after_comma (Str.strip x)));
        by rewrite !clean_text_strip.
  - by destruct rest as [|p3 rest].
Qed.

Lemma address_parts_trimmed (address_span : node) :
  Forall (fun part => exists x, part = Str.strip x)
         (address_parts address_span).
Proof.
  unfold address_parts. apply Forall_fmap, Forall_forall.
  intros x _. by exists x.
Qed.

End Address.

(** *** C7 *)

(** C7: [extract_address_components] always returns.  For a cell whose
    nested Address element is found, with [parts] the trimmed non-empty
    text fragments of that element in order: street is [parts[0]] and city
    [parts[1]] when present; a third part with exactly one comma is split
    at it into region and country, any other third part is the region; a
    fourth part becomes the country only when the country is still empty;
    each component goes through [clean_text].  Without the Address element,
    and whenever the lookup raises, the four components are empty.  The
    parts [123 Main St; Springfield; IL, USA] give region IL and country
    USA, the parts [123 Main St; Springfield; Illinois] give region
    Illinois and no country. *)
Theorem extract_address_components_split :
  (forall address_td : option node,
      exists components,
        PartnerScraper.extract_address_components address_td = Ok components)
  /\ (forall name attrs contents address_span,
         find "span"
              (has_class "pl-results-td-contact-plocez__Address__c")
              (Tag name attrs contents) = Some address_span ->
         PartnerScraper.extract_address_components
           (Some (Tag name attrs contents))
         = Ok (Spec.split_address
                 (PartnerScraper.address_parts address_span)))
  /\ (forall name attrs contents,
         find "span"
              (has_class "pl-results-td-contact-plocez__Address__c")
              (Tag name attrs contents) = None ->
         PartnerScraper.extract_address_components
           (Some (Tag name attrs contents))
         = Ok PartnerScraper.no_address)
  /\ (forall address_td e,
         find_method "span"
              (has_class "pl-results-td-contact-plocez__Address__c")
              address_td = Raise e ->
         PartnerScraper.extract_address_components (Some address_td)
         = Ok PartnerScraper.no_address)
  /\ PartnerScraper.split_address_parts
       ["123 Main St"; "Springfield"; "IL, USA"]
     = ("123 Main St", "Springfield", "IL", "USA")
  /\ PartnerScraper.split_address_parts
       ["123 Main St"; "Springfield"; "Illinois"]
     = ("123 Main St", "Springfield", "Illinois", "").
Proof.
  split; [|split; [|split; [|split; [|by vm_compute]]]].
  - intros [td|]; [|by eexists].
    unfold PartnerScraper.extract_address_components.
    destruct (negb (truthy td)); [by eexists|].
    destruct td as [text|text|name attrs contents]; simpl; try by eexists.
    destruct (find _ _ _); by eexists.
  - intros name attrs contents address_span Hfind.
    unfold PartnerScraper.extract_address_components. simpl.
    rewrite Hfind. simpl. f_equal.
    apply split_address_parts_spec, address_parts_trimmed.
  - intros name attrs contents Hfind.
    unfold PartnerScraper.extract_address_components. simpl.
    by rewrite Hfind.
  - intros td e Hraise.
    unfold PartnerScraper.extract_address_components.
    destruct (negb (truthy td)); [done|].
    by rewrite Hraise.
Qed.

Lemma extract_address_components_split_witness :
  find "span" (has_class "pl-results-td-contact-plocez__Address__c")
       Fixtures.address_td = Some Fixtures.address_span
  /\ PartnerScraper.extract_address_components (Some Fixtures.address_td)
     = Ok ("123 Main St", "Springfield", "IL", "USA").
Proof.
  split; [reflexivity|].
  exact (proj1 (proj2 extract_address_components_split)
           "td" [("class", "pl-results-td-address")]
           [Fixtures.address_span] Fixtures.address_span eq_refl).
Defined.

(** ** The row extractor *)

Section Row.

Import PartnerScraper.

Variable BeautifulSoup : string -> result node.

Lemma parse_partner_row_ok html soup :
  BeautifulSoup html = Ok soup ->
  parse_partner_row BeautifulSoup html = Ok (extract_fields soup).
Proof.
  intros H. unfold parse_partner_row, parse_partner_row_body.
  by rewrite H.
Qed.

Lemma parse_partner_row_raise html e :
  BeautifulSoup html = Raise e ->
  parse_partner_row BeautifulSoup html = Ok empty_record.
Proof.
  intros H. unfold parse_partner_row, parse_partner_row_body.
  by rewrite H.
Qed.

Lemma parse_partner_row_cases html :
  (exists soup, BeautifulSoup html = Ok soup
                /\ parse_partner_row BeautifulSoup html
                   = Ok (extract_fields soup))
  \/ (exists e, BeautifulSoup html = Raise e
                /\ parse_partner_row BeautifulSoup html = Ok empty_record).
Proof.
  destruct (BeautifulSoup html) as [soup|e] eqn:H.
  - left. exists soup. split; [done|]. by apply parse_partner_row_ok.
  - right. exists e. split; [done|]. by eapply parse_partner_row_raise.
Qed.

Lemma columns_extract_fields soup :
  (extract_fields soup).*1 = Spec.column <$> Spec.fields.
Proof. reflexivity. Qed.

Lemma columns_empty_record :
  empty_record.*1 = Spec.column <$> Spec.fields.
Proof. reflexivity. Qed.

Lemma value_of_columns (r : record) :
  r.*1 = Spec.column <$> Spec.fields ->
  forall f, exists v, Spec.value f r = Some v.
Proof.
  intros H.
  destruct r as [|[k0 v0] [|[k1 v1] [|[k2 v2] [|[k3 v3] [|[k4 v4]
    [|[k5 v5] [|[k6 v6] [|[k7 v7] [|[k8 v8] [|[k9 v9] [|[k10 v10]
    [|? ?]]]]]]]]]]]]; try done.
  injection H as -> -> -> -> -> -> -> -> -> -> ->.
  intros []; by eexists.
Qed.

End Row.

(** *** C1 *)

(** C1: for every parser behaviour and every fragment, [parse_partner_row]
    returns a record and raises nothing; when its [try] block raises (the
    fragment cannot be parsed, or an exception is raised on the way), every
    one of the eleven fields of the record returned is the empty string. *)
Theorem parse_partner_row_total
    (BeautifulSoup : string -> result node) (html_snippet : string) :
  exists r : record,
    PartnerScraper.parse_partner_row BeautifulSoup html_snippet = Ok r
    /\ (forall e,
           PartnerScraper.parse_partner_row_body BeautifulSoup html_snippet
           = Raise e ->
           length r = 11 /\ forall f : Spec.field, Spec.value f r = Some "")
    /\ (forall e,
           BeautifulSoup html_snippet = Raise e ->
           length r = 11 /\ forall f : Spec.field, Spec.value f r = Some "").
Proof.
  unfold PartnerScraper.parse_partner_row.
  destruct (PartnerScraper.parse_partner_row_body BeautifulSoup html_snippet)
    as [r|e] eqn:Hbody.
  - exists r. split; [done|]. split; [done|].
    intros e He. unfold PartnerScraper.parse_partner_row_body in Hbody.
    by rewrite He in Hbody.
  - exists PartnerScraper.empty_record. split; [done|].
    split; intros _ _; (split; [done|]); by intros [].
Qed.

(** *** C2 *)

(** C2: on every fragment, whether the [try] block returns or raises, the
    record returned has exactly the eleven columns of Number, SiemensBatch,
    Name, PartnerBatch, Locations, OfficeAddress, ContactName, ContactEmail,
    ContactTelephone, ContactWebsite and ProcedSpecialization, in that
    order, and every field has a string as its value. *)
Theorem parse_partner_row_columns
    (BeautifulSoup : string -> result node) (html_snippet : string) :
  exists r : record,
    PartnerScraper.parse_partner_row BeautifulSoup html_snippet = Ok r
    /\ r.*1 = Spec.column <$> Spec.fields
    /\ length r = 11
    /\ NoDup (r.*1)
    /\ forall f : Spec.field, exists v : string, Spec.value f r = Some v.
Proof.
  assert (forall r : record,
             r.*1 = Spec.column <$> Spec.fields ->
             r.*1 = Spec.column <$> Spec.fields /\ length r = 11
             /\ NoDup (r.*1)
             /\ forall f, exists v, Spec.value f r = Some v) as Hcols.
  { intros r Hr. split; [done|]. split.
    { by rewrite <- (length_fmap fst), Hr. }
    split; [|by apply value_of_columns].
    rewrite Hr. apply (bool_decide_unpack _). by vm_compute. }
  destruct (parse_partner_row_cases BeautifulSoup html_snippet)
    as [(soup & _ & ->)|(e & _ & ->)].
  - eexists. split; [done|]. apply Hcols, columns_extract_fields.
  - eexists. split; [done|]. apply Hcols, columns_empty_record.
Qed.

Lemma parse_partner_row_total_witness :
  exists r : record,
    PartnerScraper.parse_partner_row Fixtures.failing_parser "<tr" = Ok r
    /\ length r = 11
    /\ forall f : Spec.field, Spec.value f r = Some "".
Proof.
  destruct (parse_partner_row_total Fixtures.failing_parser "<tr")
    as (r & Hr & _ & Hparse).
  exists r. split; [exact Hr|]. exact (Hparse _ eq_refl).
Defined.

(** ** Searching the tree *)

Section Search.

Lemma head_filter_Some {A} (f : A -> bool) (l : list A) (x : A) :
  head (List.filter f l) = Some x -> f x = true /\ x ∈ l.
Proof.
  induction l as [|a l IH]; [done|]. simpl.
  destruct (f a) eqn:Ha.
  - intros [= ->]. split; [done|]. left.
  - intros [? ?]%IH. split; [done|]. by right.
Qed.

(** What [find] returns passes the filters it was given. *)
Lemma find_Some name f n x :
  find name f n = Some x ->
  is_tag name x = true /\ f x = true /\ x ∈ descendants n.
Proof.
  unfold find, find_all. intros [Hx ?]%head_filter_Some.
  apply andb_true_iff in Hx as [? ?]. done.
Qed.

Lemma prefix_iff (p s : string) :
  String.prefix p s = true <-> exists rest, s = p ++ rest.
Proof.
  revert s. induction p as [|a p IH]; intros s.
  - split; [|by destruct s]. intros _. by exists s.
  - destruct s as [|b s]; simpl.
    + split; [done|]. by intros [rest ?].
    + destruct (ascii_dec a b) as [->|Hne].
      * rewrite IH. split.
        -- intros [rest ->]. by exists rest.
        -- intros [rest [= ->]]. by exists rest.
      * split; [done|]. intros [rest [= ? _]]. congruence.
Qed.

Lemma startswith_http (href : string) :
  Str.startswith_any ["http://"; "https://"] href = true
  <-> Spec.has_http_scheme href.
Proof.
  unfold Str.startswith_any, Str.startswith, Spec.has_http_scheme.
  cbn [existsb]. rewrite orb_false_r, orb_true_iff, !prefix_iff.
  split.
  - intros [[rest ->]|[rest ->]]; exists rest; auto.
  - intros [rest [->| ->]]; [left|right]; by exists rest.
Qed.

End Search.

(** *** C5 *)

(** C5: when the fragment has a website element and that element has a link
    with a target, ContactWebsite is the target exactly when the target
    starts with [http://] or [https://], and the empty string otherwise. *)
Theorem contact_website_scheme
    (BeautifulSoup : string -> result node) (html_snippet : string)
    (soup website_span web_link : node) :
  BeautifulSoup html_snippet = Ok soup ->
  find "span" (has_class "pl-results-td-contact-PLP_Website__c") soup
  = Some website_span ->
  find "a" (has_attr "href") website_span = Some web_link ->
  exists (r : record) (href : string),
    PartnerScraper.parse_partner_row BeautifulSoup html_snippet = Ok r
    /\ get "href" web_link = Some href
    /\ ((Spec.has_http_scheme href
         /\ Spec.value Spec.ContactWebsite r = Some href)
        \/ (~ Spec.has_http_scheme href
            /\ Spec.value Spec.ContactWebsite r = Some "")).
Proof.
  intros Hsoup Hspan Hlink.
  destruct (find_Some _ _ _ _ Hlink) as (_ & Hattr & _).
  unfold has_attr in Hattr.
  destruct (get "href" web_link) as [href|] eqn:Hhref; [|done].
  exists (PartnerScraper.extract_fields soup), href.
  split; [by apply parse_partner_row_ok|]. split; [done|].
  unfold Spec.value, PartnerScraper.extract_fields.
  cbn [dict_get Spec.column String.eqb Ascii.eqb Bool.eqb].
  rewrite Hspan, Hlink, Hhref. cbn [default from_option id].
  destruct (Str.startswith_any _ href) eqn:Hs.
  - left. split; [|done]. by apply startswith_http.
  - right. split; [|done]. intros H%startswith_http. congruence.
Qed.

Lemma contact_website_scheme_witness :
  (exists r href,
      PartnerScraper.parse_partner_row
        (Fixtures.parser_of (Fixtures.row "https://x.com")) "<tr>" = Ok r
      /\ get "href" (Fixtures.link "https://x.com" "Website") = Some href
      /\ ((Spec.has_http_scheme href
           /\ Spec.value Spec.ContactWebsite r = Some href)
          \/ (~ Spec.has_http_scheme href
              /\ Spec.value Spec.ContactWebsite r = Some "")))
  /\ (exists r href,
      PartnerScraper.parse_partner_row
        (Fixtures.parser_of (Fixtures.row "ftp://x.com")) "<tr>" = Ok r
      /\ get "href" (Fixtures.link "ftp://x.com" "Website") = Some href
      /\ ((Spec.has_http_scheme href
           /\ Spec.value Spec.ContactWebsite r = Some href)
          \/ (~ Spec.has_http_scheme href
              /\ Spec.value Spec.ContactWebsite r = Some ""))).
Proof.
  split.
  - exact (contact_website_scheme
             (Fixtures.parser_of (Fixtures.row "https://x.com")) "<tr>"
             (Fixtures.row "https://x.com")
             (Fixtures.website "https://x.com")
             (Fixtures.link "https://x.com" "Website")
             eq_refl eq_refl eq_refl).
  - exact (contact_website_scheme
             (Fixtures.parser_of (Fixtures.row "ftp://x.com")) "<tr>"
             (Fixtures.row "ftp://x.com")
             (Fixtures.website "ftp://x.com")
             (Fixtures.link "ftp://x.com" "Website")
             eq_refl eq_refl eq_refl).
Defined.

(** The two website examples of the specification, evaluated. *)
Example contact_website_examples :
  Spec.value Spec.ContactWebsite
    (PartnerScraper.extract_fields (Fixtures.row "ftp://x.com")) = Some ""
  /\ Spec.value Spec.ContactWebsite
       (PartnerScraper.extract_fields (Fixtures.row "https://x.com"))
     = Some "https://x.com".
Proof. by vm_compute. Qed.

(** *** C9 *)




(** ** The specialization set *)

Section Specialization.

Import PartnerScraper.

Local Abbreviation text_of := (fun li : node => clean_text (get_text li)).

(** What the loop leaves in the set. *)
Lemma elem_of_foldl_add_specialization
      (specializations : gset string) (items : list node) (x : string) :
  x ∈ foldl add_specialization specializations items
  <-> x ∈ specializations
      \/ (x <> "" /\ exists li, li ∈ items /\ text_of li = x).
Proof.
  revert specializations.
  induction items as [|li items IH]; intros specializations; simpl.
  - split; [by left|]. intros [?|(_ & li & Hli & _)]; [done|].
    by apply elem_of_nil in Hli.
  - rewrite IH. unfold add_specialization at 1.
    destruct (Str.is_empty (text_of li)) eqn:He; simpl.
    + apply is_empty_true in He. split.
      * intros [?|(Hx & li' & Hli' & Heq)]; [by left|].
        right. split; [done|]. exists li'. split; [by right|done].
      * intros [?|(Hx & li' & Hli' & Heq)]; [by left|].
        apply elem_of_cons in Hli' as [->|Hli']; [congruence|].
        right. split; [done|]. by exists li'.
    + apply is_empty_false in He. rewrite elem_of_union, elem_of_singleton.
      split.
      * intros [[?| ->]|(Hx & li' & Hli' & Heq)]; [by left|..].
        -- right. split; [done|]. exists li. split; [by left|done].
        -- right. split; [done|]. exists li'. split; [by right|done].
      * intros [?|(Hx & li' & Hli' & Heq)]; [by left; left|].
        apply elem_of_cons in Hli' as [->|Hli']; [by left; right|].
        right. split; [done|]. by exists li'.
Qed.

(** [sorted(set)]: increasing, without repetition, the same members. *)
Lemma sorted_elements (S : gset string) :
  StronglySorted String.le (sorted (elements S))
  /\ NoDup (sorted (elements S))
  /\ forall x, x ∈ sorted (elements S) <-> x ∈ S.
Proof.
  unfold sorted. split; [apply StronglySorted_merge_sort; apply _|].
  split.
  - rewrite merge_sort_Permutation. apply NoDup_elements.
  - intros x. by rewrite merge_sort_Permutation, elem_of_elements.
Qed.

(** The set the source builds for a document. *)
Lemma proced_specialization_value (soup : node) :
  Spec.value Spec.ProcedSpecialization (extract_fields soup)
  = Some (Str.join ", " (sorted (elements
      (match find "span"
               (has_class
                  "pl-results-td-account-Product_Specialization__c")
               soup with
       | Some spec_container =>
           foldl add_specialization ∅
                 (find_all "li" (has_class "list-group-item")
                           spec_container)
       | None => ∅
       end)))).
Proof. reflexivity. Qed.

Lemma partner_batch_value (soup : node) :
  Spec.value Spec.PartnerBatch (extract_fields soup)
  = Some (match find "span" (id_contains "resultsPartnerType") soup with
          | Some partner_type_span =>
              Str.join ", "
                (text_of <$> find_all "li" (has_class "list-group-item")
                                      partner_type_span)
          | None => ""
          end).
Proof. reflexivity. Qed.

(** Two item lists with the same texts build the same set. *)
Lemma foldl_add_specialization_perm (items1 items2 : list node) :
  text_of <$> items1 ≡ₚ text_of <$> items2 ->
  foldl add_specialization ∅ items1 = foldl add_specialization ∅ items2.
Proof.
  intros Hperm. apply set_eq. intros x.
  rewrite !elem_of_foldl_add_specialization.
  assert (forall items : list node,
             (exists li, li ∈ items /\ text_of li = x)
             <-> x ∈ text_of <$> items) as Hmem.
  { intros items. rewrite list_elem_of_fmap. split.
    - intros (li & ? & ?). by exists li.
    - intros (li & ? & ?). by exists li. }
  by rewrite !Hmem, Hperm.
Qed.

(** The loop builds the set of the item texts that are not empty. *)
Lemma foldl_add_specialization_filter (items : list node) :
  foldl add_specialization ∅ items
  = list_to_set
      (List.filter (fun text => negb (Str.is_empty text))
                   (text_of <$> items)).
Proof.
  apply set_eq. intros x.
  rewrite elem_of_foldl_add_specialization, elem_of_list_to_set.
  rewrite list_elem_of_In, filter_In, <- list_elem_of_In.
  rewrite list_elem_of_fmap, negb_true_iff, is_empty_false. split.
  - intros [Hx|(Hne & li & Hli & Heq)]; [by apply elem_of_empty in Hx|].
    split; [by exists li|done].
  - intros [(li & -> & Hli) Hne]. right. split; [done|]. by exists li.
Qed.

Lemma sorted_elements_empty : sorted (elements (∅ : gset string)) = [].
Proof. by rewrite elements_empty. Qed.

End Specialization.

(** *** C6 *)

(** C6, as stated: with the texts of all the list items in the set, the row
    whose items read [$] and [CT] would give [, CT]; the source gives [CT]. *)
Lemma proced_specialization_not_all_items :
  Spec.value Spec.ProcedSpecialization
    (PartnerScraper.extract_fields Fixtures.row_with_blank_specialization)
  <> Some (Spec.specialization_of_all_items
             (find_all "li" (has_class "list-group-item")
                       Fixtures.blank_specialization)).
Proof. vm_compute. discriminate. Qed.

(** C6, amended: ProcedSpecialization is the comma-and-space join of the
    entries obtained from the list items of the specialization container by
    normalising their texts, dropping the texts that normalise to the empty
    string, keeping one entry per distinct text and sorting the entries
    lexicographically; two containers whose items have the same texts, in
    any order, give the same value. *)
Theorem proced_specialization_sorted_set
    (BeautifulSoup : string -> result node) (html_snippet : string)
    (soup spec_container : node) :
  BeautifulSoup html_snippet = Ok soup ->
  find "span" (has_class "pl-results-td-account-Product_Specialization__c")
       soup = Some spec_container ->
  exists (r : record) (entries : list string),
    PartnerScraper.parse_partner_row BeautifulSoup html_snippet = Ok r
    /\ Spec.value Spec.ProcedSpecialization r
       = Some (Str.join ", " entries)
    /\ StronglySorted String.le entries
    /\ NoDup entries
    /\ (forall x : string,
           x ∈ entries
           <-> x <> ""
               /\ exists li,
                   li ∈ find_all "li" (has_class "list-group-item")
                                 spec_container
                   /\ PartnerScraper.clean_text (get_text li) = x)
    /\ (forall soup' spec_container',
           find "span"
                (has_class "pl-results-td-account-Product_Specialization__c")
                soup' = Some spec_container' ->
           (fun li => PartnerScraper.clean_text (get_text li))
             <$> find_all "li" (has_class "list-group-item") spec_container'
           ≡ₚ (fun li => PartnerScraper.clean_text (get_text li))
                <$> find_all "li" (has_class "list-group-item")
                             spec_container ->
           Spec.value Spec.ProcedSpecialization
             (PartnerScraper.extract_fields soup')
           = Spec.value Spec.ProcedSpecialization r).
Proof.
  intros Hsoup Hfind.
  exists (PartnerScraper.extract_fields soup). eexists.
  split; [by apply parse_partner_row_ok|].
  rewrite proced_specialization_value, Hfind.
  split; [reflexivity|].
  destruct (sorted_elements
              (foldl PartnerScraper.add_specialization ∅
                     (find_all "li" (has_class "list-group-item")
                               spec_container)))
    as (Hsorted & Hnodup & Hmem).
  split; [done|]. split; [done|]. split.
  - intros x. rewrite Hmem, elem_of_foldl_add_specialization.
    split; [|by right]. intros [Hx|?]; [|done].
    by apply elem_of_empty in Hx.
  - intros soup' spec_container' Hfind' Hperm.
    rewrite proced_specialization_value, Hfind'.
    by rewrite (foldl_add_specialization_perm _ _ Hperm).
Qed.

Lemma proced_specialization_sorted_set_witness :
  exists (r : record) (entries : list string),
    PartnerScraper.parse_partner_row
      (Fixtures.parser_of (Fixtures.row "https://x.com")) "<tr>" = Ok r
    /\ Spec.value Spec.ProcedSpecialization r
       = Some (Str.join ", " entries)
    /\ StronglySorted String.le entries
    /\ NoDup entries.
Proof.
  destruct (proced_specialization_sorted_set
              (Fixtures.parser_of (Fixtures.row "https://x.com")) "<tr>"
              (Fixtures.row "https://x.com")
              (Fixtures.labelled
                 "pl-results-td-account-Product_Specialization__c"
                 [ Tag "ul" []
                     [ Fixtures.list_item "MRI"; Fixtures.list_item "CT";
                       Fixtures.list_item " CT "; Fixtures.list_item "ct" ] ])
              eq_refl eq_refl)
    as (r & entries & Hr & Hvalue & Hsorted & Hnodup & _).
  exists r, entries. repeat split; assumption.
Defined.

(** The specialization example of the specification: items reading CT, MRI,
    CT again and ct give [CT, MRI, ct]. *)
Example proced_specialization_example :
  Spec.value Spec.ProcedSpecialization
    (PartnerScraper.extract_fields (Fixtures.row "https://x.com"))
  = Some "CT, MRI, ct".
Proof. by vm_compute. Qed.

(** *** C10 *)

(** C10: ProcedSpecialization is the join of the entries that the list
    items of the specialization container leave once the items whose
    normalised text is the empty string are dropped: the entries are
    exactly the non-empty normalised item texts, each once, in sorted
    order, so none is empty, and a container holding only items that
    normalise to the empty string (like a fragment without container) has
    no entry and gives the empty string; PartnerBatch is the join of the
    normalised texts of all the list items of its container, one entry per
    item, the empty ones included. *)
Theorem proced_specialization_no_empty_entry
    (BeautifulSoup : string -> result node) (html_snippet : string)
    (soup : node) :
  BeautifulSoup html_snippet = Ok soup ->
  exists (r : record) (entries : list string),
    PartnerScraper.parse_partner_row BeautifulSoup html_snippet = Ok r
    /\ Spec.value Spec.ProcedSpecialization r
       = Some (Str.join ", " entries)
    /\ Forall (fun entry => entry <> "") entries
    /\ (forall spec_container,
           find "span"
                (has_class "pl-results-td-account-Product_Specialization__c")
                soup = Some spec_container ->
           Forall (fun li => PartnerScraper.clean_text (get_text li) = "")
                  (find_all "li" (has_class "list-group-item")
                            spec_container) ->
           Spec.value Spec.ProcedSpecialization r = Some "")
    /\ (forall partner_type_span,
           find "span" (id_contains "resultsPartnerType") soup
           = Some partner_type_span ->
           exists batch : list string,
             Spec.value Spec.PartnerBatch r = Some (Str.join ", " batch)
             /\ batch
                = (fun item => PartnerScraper.clean_text (get_text item))
                    <$> find_all "li" (has_class "list-group-item")
                                 partner_type_span
             /\ length batch
                = length (find_all "li" (has_class "list-group-item")
                                   partner_type_span))
    /\ StronglySorted String.le entries
    /\ NoDup entries
    /\ (forall x : string,
           x ∈ entries
           <-> x <> ""
               /\ exists spec_container li,
                   find "span"
                     (has_class
                        "pl-results-td-account-Product_Specialization__c")
                     soup = Some spec_container
                   /\ li ∈ find_all "li" (has_class "list-group-item")
                                    spec_container
                   /\ PartnerScraper.clean_text (get_text li) = x)
    /\ (forall spec_container,
           find "span"
                (has_class "pl-results-td-account-Product_Specialization__c")
                soup = Some spec_container ->
           entries
           = sorted
               (elements
                  (list_to_set
                     (List.filter
                        (fun text => negb (Str.is_empty text))
                        ((fun li => PartnerScraper.clean_text (get_text li))
                           <$> find_all "li" (has_class "list-group-item")
                                        spec_container))
                   : gset string))
           /\ (Forall (fun li => PartnerScraper.clean_text (get_text li) = "")
                      (find_all "li" (has_class "list-group-item")
                                spec_container) ->
               entries = []))
    /\ (find "span"
             (has_class "pl-results-td-account-Product_Specialization__c")
             soup = None ->
        entries = []).
Proof.
  intros Hsoup.
  exists (PartnerScraper.extract_fields soup). eexists.
  split; [by apply parse_partner_row_ok|].
  rewrite proced_specialization_value, partner_batch_value.
  split; [reflexivity|].
  set (S := match find "span" _ soup with
            | Some spec_container => _
            | None => ∅
            end).
  destruct (sorted_elements S) as (Hsorted & Hnodup & Hmem).
  assert (forall x,
             x ∈ S
             <-> x <> ""
                 /\ exists spec_container li,
                     find "span"
                       (has_class
                          "pl-results-td-account-Product_Specialization__c")
                       soup = Some spec_container
                     /\ li ∈ find_all "li" (has_class "list-group-item")
                                      spec_container
                     /\ PartnerScraper.clean_text (get_text li) = x)
    as HS.
  { intros x. subst S. destruct (find "span" _ soup) as [c|].
    - rewrite elem_of_foldl_add_specialization. split.
      + intros [Hx|(Hne & li & Hli & Heq)]; [by apply elem_of_empty in Hx|].
        split; [done|]. by exists c, li.
      + intros (Hne & c' & li & [= <-] & Hli & Heq).
        right. split; [done|]. by exists li.
    - split; [by intros Hx%elem_of_empty|].
      by intros (_ & c & li & ? & _). }
  assert (forall spec_container,
             find "span"
                  (has_class
                     "pl-results-td-account-Product_Specialization__c")
                  soup = Some spec_container ->
             Forall (fun li => PartnerScraper.clean_text (get_text li) = "")
                    (find_all "li" (has_class "list-group-item")
                              spec_container) ->
             S = ∅) as Hblank.
  { intros c Hfind Hall. apply set_eq. intros x. rewrite HS.
    split; [|by intros Hx%elem_of_empty].
    intros (Hne & c' & li & Hfind' & Hli & Heq).
    rewrite Hfind in Hfind'. injection Hfind' as <-.
    rewrite Forall_forall in Hall. apply Hall in Hli. congruence. }
  split; [|split; [|split; [|split; [|split; [|split; [|split]]]]]].
  - apply Forall_forall. intros x Hx. by apply HS, Hmem.
  - intros c Hfind Hall. by rewrite (Hblank c Hfind Hall).
  - intros partner_type_span ->. eexists.
    split; [reflexivity|]. split; [reflexivity|]. by rewrite length_fmap.
  - done.
  - done.
  - intros x. by rewrite Hmem, HS.
  - intros c Hfind. split.
    + subst S. rewrite Hfind.
      by rewrite foldl_add_specialization_filter.
    + intros Hall. rewrite (Hblank c Hfind Hall).
      apply sorted_elements_empty.
  - intros Hfind. subst S. rewrite Hfind. apply sorted_elements_empty.
Qed.

Lemma proced_specialization_no_empty_entry_witness :
  exists (r : record) (entries : list string),
    PartnerScraper.parse_partner_row
      (Fixtures.parser_of Fixtures.row_with_blank_specialization) "<tr>"
    = Ok r
    /\ Spec.value Spec.ProcedSpecialization r
       = Some (Str.join ", " entries)
    /\ Forall (fun entry => entry <> "") entries
    /\ entries = ["CT"].
Proof.
  destruct (proced_specialization_no_empty_entry
              (Fixtures.parser_of Fixtures.row_with_blank_specialization)
              "<tr>" Fixtures.row_with_blank_specialization eq_refl)
    as (r & entries & Hr & Hvalue & Hentries & _ & _ & _ & _ & _ & Hdrop & _).
  exists r, entries. split; [exact Hr|]. split; [exact Hvalue|].
  split; [exact Hentries|].
  exact (proj1 (Hdrop Fixtures.blank_specialization eq_refl)).
Defined.

(** The two joins on the sample row: the item reading [$] normalises to the
    empty string; it is an entry of PartnerBatch and none of
    ProcedSpecialization. *)
Example partner_batch_keeps_empty_entry :
  Spec.value Spec.PartnerBatch
    (PartnerScraper.extract_fields (Fixtures.row "https://x.com"))
  = Some "Gold, , Silver"
  /\ Spec.value Spec.ProcedSpecialization
       (PartnerScraper.extract_fields Fixtures.row_with_blank_specialization)
     = Some "CT".
Proof. by vm_compute. Qed.

(** ** Document order *)

Section DocumentOrder.

Local Open Scope list_scope.

Implicit Types (p q s : path) (n m c : node) (cs : list node).

Local Abbreviation before1 :=
  (fun x y : path * node => Spec.doc_before x.1 y.1).

Lemma node_ind' (P : node -> Prop) :
  (forall text, P (NavigableString text)) ->
  (forall text, P (Comment text)) ->
  (forall name attrs cs, Forall P cs -> P (Tag name attrs cs)) ->
  forall n, P n.
Proof.
  intros Hstr Hcom Htag.
  fix IH 1. intros [text|text|name attrs cs].
  - apply Hstr.
  - apply Hcom.
  - apply Htag. induction cs as [|c cs IHcs]; constructor; [apply IH|done].
Qed.

Lemma walk_Tag p name attrs cs :
  walk p (Tag name attrs cs)
  = (p, Tag name attrs cs) :: walk_children p 0 cs.
Proof.
  simpl. f_equal. generalize 0.
  induction cs as [|c cs IH]; intros i; [done|]. simpl. by rewrite IH.
Qed.

Lemma comes_before_irrefl p : Spec.comes_before p p = false.
Proof.
  induction p as [|i p IH]; [done|]. simpl.
  by rewrite Nat.ltb_irrefl, Nat.eqb_refl, IH.
Qed.

Lemma doc_before_app p s1 s2 :
  Spec.doc_before (p ++ s1) (p ++ s2) <-> Spec.doc_before s1 s2.
Proof.
  unfold Spec.doc_before. induction p as [|i p IH]; [done|]. simpl.
  by rewrite Nat.ltb_irrefl, Nat.eqb_refl.
Qed.

Lemma doc_before_inside p i s : Spec.doc_before p (p ++ i :: s).
Proof.
  rewrite <- (app_nil_r p) at 1. by apply doc_before_app.
Qed.

Lemma doc_before_sibling p i j s1 s2 :
  i < j -> Spec.doc_before (p ++ i :: s1) (p ++ j :: s2).
Proof.
  intros Hij. apply doc_before_app. unfold Spec.doc_before. simpl.
  apply Nat.ltb_lt in Hij. by rewrite Hij.
Qed.

Lemma node_at_leaf n s m :
  (forall name attrs cs, n <> Tag name attrs cs) ->
  node_at n s = Some m <-> s = [] /\ m = n.
Proof.
  intros Hn. destruct s as [|i s]; simpl.
  - split; [by intros [= ->]|by intros [_ ->]].
  - destruct n; [| |by edestruct Hn]; (split; [intros [=]|intros [[=] _]]).
Qed.

(** The elements [walk] lists are the elements of the tree, each at its
    place. *)
Lemma elem_of_walk n :
  forall p q m,
    (q, m) ∈ walk p n <-> exists s, q = p ++ s /\ node_at n s = Some m.
Proof.
  induction n as [text|text|name attrs cs IH] using node_ind'; intros p q m.
  - simpl. rewrite list_elem_of_singleton. split.
    + intros [= -> ->]. exists []. by rewrite app_nil_r.
    + intros (s & -> & [-> ->]%node_at_leaf); [|done].
      by rewrite app_nil_r.
  - simpl. rewrite list_elem_of_singleton. split.
    + intros [= -> ->]. exists []. by rewrite app_nil_r.
    + intros (s & -> & [-> ->]%node_at_leaf); [|done].
      by rewrite app_nil_r.
  - rewrite walk_Tag, elem_of_cons.
    assert (forall i,
               (q, m) ∈ walk_children p i cs
               <-> exists j s c, q = p ++ (i + j) :: s
                                 /\ cs !! j = Some c
                                 /\ node_at c s = Some m) as Hchildren.
    { induction cs as [|c cs IHcs]; intros i.
      - simpl. split; [by intros ?%elem_of_nil|].
        by intros (j & s & c & _ & ? & _).
      - apply Forall_cons in IH as [IHc IH]. simpl.
        rewrite elem_of_app, IHc, (IHcs IH). split.
        + intros [(s & -> & Hs)|(j & s & c' & -> & Hj & Hs)].
          * exists 0, s, c. rewrite <- app_assoc, Nat.add_0_r. done.
          * exists (S j), s, c'. by rewrite Nat.add_succ_r.
        + intros ([|j] & s & c' & -> & Hj & Hs); simplify_eq/=.
          * left. exists s. by rewrite <- app_assoc, Nat.add_0_r.
          * right. exists j, s, c'. by rewrite Nat.add_succ_r. }
    rewrite Hchildren. split.
    + intros [[= -> ->]|(j & s & c & -> & Hj & Hs)].
      * exists []. by rewrite app_nil_r.
      * exists (j :: s). simpl. by rewrite Hj.
    + intros ([|j s] & -> & Hs); simpl in Hs.
      * left. rewrite app_nil_r. by injection Hs as ->.
      * right. destruct (cs !! j) as [c|] eqn:Hj; [|done].
        by exists j, s, c.
Qed.

Lemma elem_of_walk_children cs p i q m :
  (q, m) ∈ walk_children p i cs ->
  exists j s, q = p ++ (i + j) :: s.
Proof.
  revert i. induction cs as [|c cs IH]; intros i; simpl.
  - by intros ?%elem_of_nil.
  - rewrite elem_of_app. intros [(s & -> & _)%elem_of_walk|Hin].
    + exists 0, s. by rewrite <- app_assoc, Nat.add_0_r.
    + apply IH in Hin as (j & s & ->). exists (S j), s.
      by rewrite Nat.add_succ_r.
Qed.

(** [walk] lists the elements in document order. *)
Lemma walk_sorted n : forall p, StronglySorted before1 (walk p n).
Proof.
  induction n as [text|text|name attrs cs IH] using node_ind'; intros p.
  - repeat constructor.
  - repeat constructor.
  - rewrite walk_Tag. constructor.
    + generalize 0.
      induction cs as [|c cs IHcs]; intros i; simpl; [constructor|].
      apply Forall_cons in IH as [IHc IH].
      apply StronglySorted_app_2; [|apply IHc|by apply IHcs].
      intros [q1 m1] [q2 m2] (s1 & -> & _)%elem_of_walk
             (j & s2 & ->)%elem_of_walk_children.
      simpl. rewrite <- app_assoc. apply doc_before_sibling. lia.
    + apply Forall_forall.
      intros [q m] (j & s & ->)%elem_of_walk_children.
      simpl. apply doc_before_inside.
Qed.

Lemma StronglySorted_filter {A} (R : relation A) (f : A -> bool) l :
  StronglySorted R l -> StronglySorted R (List.filter f l).
Proof.
  induction 1 as [|a l Hl IH Ha]; simpl; [constructor|].
  destruct (f a); [|done]. constructor; [done|].
  rewrite Forall_forall in *. intros x Hx.
  apply list_elem_of_In, filter_In in Hx as [Hx _].
  by apply Ha, list_elem_of_In.
Qed.

Lemma StronglySorted_tail {A} (R : relation A) l :
  StronglySorted R l -> StronglySorted R (tail l).
Proof. destruct 1; [constructor|done]. Qed.

Lemma elem_of_descendants_at n q m :
  (q, m) ∈ descendants_at [] n <-> q <> [] /\ node_at n q = Some m.
Proof.
  unfold descendants_at.
  pose proof (walk_sorted n []) as Hsorted.
  pose proof (elem_of_walk n [] q m) as Hwalk.
  destruct (walk [] n) as [|[q0 m0] rest] eqn:Hw.
  { by destruct n. }
  assert (q0 = [] /\ m0 = n) as [-> ->].
  { destruct n; simpl in Hw; by injection Hw as -> ->. }
  apply StronglySorted_inv in Hsorted as [_ Hfirst].
  rewrite Forall_forall in Hfirst.
  rewrite elem_of_cons in Hwalk. simpl. split.
  - intros Hin. split.
    + intros ->. apply Hfirst in Hin. by simpl in Hin.
    + destruct Hwalk as [(s & -> & Hs) _]; [by right|done].
  - intros [Hne Hq]. destruct Hwalk as [_ [[= ? _]|?]]; [by exists q|..];
      done.
Qed.

(** The elements [find_all] finds are the tags of that name below the
    root that pass the filter; it lists them in document order. *)
Lemma elem_of_find_all_at name f n q m :
  (q, m) ∈ find_all_at name f n
  <-> q <> [] /\ node_at n q = Some m
      /\ is_tag name m = true /\ f m = true.
Proof.
  unfold find_all_at.
  rewrite list_elem_of_In, filter_In, <- list_elem_of_In.
  rewrite elem_of_descendants_at. simpl. rewrite andb_true_iff. tauto.
Qed.

Lemma find_all_at_sorted name f n :
  StronglySorted Spec.doc_before (find_all_at name f n).*1.
Proof.
  apply (StronglySorted_fmap fst before1); [done|].
  apply StronglySorted_filter, StronglySorted_tail, walk_sorted.
Qed.

Lemma doc_before_NoDup (places : list path) :
  StronglySorted Spec.doc_before places -> NoDup places.
Proof.
  induction 1 as [|p places _ IH Hp]; constructor; [|done].
  intros Hin. rewrite Forall_forall in Hp. apply Hp in Hin.
  unfold Spec.doc_before in Hin. by rewrite comes_before_irrefl in Hin.
Qed.

End DocumentOrder.

(** ** The segmenter *)

Section Segmenter.

Import PartnerScraper.

Variable BeautifulSoup : string -> result node.
Variable str_of_tag : node -> string.

(** The fragment of the marker at place [p]: the markup of the nearest
    enclosing row. *)
Local Abbreviation fragment soup p :=
  (str_of str_of_tag (find_parent soup "tr" p)).

Lemma parse_partner_row_returns html :
  exists r, parse_partner_row BeautifulSoup html = Ok r.
Proof.
  destruct (parse_partner_row_cases BeautifulSoup html)
    as [(soup & _ & ->)|(e & _ & ->)]; by eexists.
Qed.

Lemma process_row_ok soup results (row : path * node) :
  exists r,
    parse_partner_row BeautifulSoup (fragment soup row.1) = Ok r
    /\ process_row BeautifulSoup str_of_tag soup results row
       = Ok (results ++ [r])%list.
Proof.
  destruct (parse_partner_row_returns (fragment soup row.1)) as [r Hr].
  exists r. split; [done|]. unfold process_row. by rewrite Hr.
Qed.

(** The loop appends one record for each marker, in the order of the
    markers. *)
Lemma for_each_process_row soup (rows : list (path * node)) results :
  exists rs,
    for_each rows (process_row BeautifulSoup str_of_tag soup) results
    = Ok (results ++ rs)%list
    /\ Forall2 (fun p r =>
                  parse_partner_row BeautifulSoup (fragment soup p) = Ok r)
               rows.*1 rs.
Proof.
  revert results. induction rows as [|row rows IH]; intros results.
  - exists []. split; [|constructor]. simpl. by rewrite app_nil_r.
  - destruct (process_row_ok soup results row) as (r & Hr & Hstep).
    destruct (IH (results ++ [r])%list) as (rs & Hloop & Hrs).
    exists (r :: rs). split; [|by constructor].
    simpl. rewrite Hstep. simpl. rewrite Hloop.
    by rewrite <- app_assoc.
Qed.

Lemma parse_all_partners_ok html soup :
  BeautifulSoup html = Ok soup ->
  exists rs,
    parse_all_partners BeautifulSoup str_of_tag html = Ok rs
    /\ Forall2 (fun p r =>
                  parse_partner_row BeautifulSoup (fragment soup p) = Ok r)
               (find_all_at "td" (has_class "pl-results-td-row-no") soup).*1
               rs.
Proof.
  intros Hsoup.
  destruct (for_each_process_row soup
              (find_all_at "td" (has_class "pl-results-td-row-no") soup) [])
    as (rs & Hloop & Hrs).
  exists rs. split; [|done].
  unfold parse_all_partners. rewrite Hsoup. simpl. by rewrite Hloop.
Qed.

Lemma elem_of_marker_places soup p :
  p ∈ (find_all_at "td" (has_class "pl-results-td-row-no") soup).*1
  <-> p <> []
      /\ exists td, node_at soup p = Some td /\ Spec.is_marker td = true.
Proof.
  rewrite list_elem_of_fmap. unfold Spec.is_marker. split.
  - intros ([q td] & -> & (? & ? & ? & ?)%elem_of_find_all_at).
    split; [done|]. exists td. split; [done|]. by apply andb_true_iff.
  - intros (Hp & td & Htd & [? ?]%andb_true_iff).
    exists (p, td). split; [done|]. by apply elem_of_find_all_at.
Qed.

End Segmenter.

(** *** C8 *)

(** C8: when the document parses, [parse_all_partners] returns one record
    for each row-number marker of the document: the places of the records
    are exactly the places of the marker cells, each once, in document
    order, and the record at each place is the extraction of the row that
    encloses the marker there; a document with no marker, an empty one
    included, gives the empty list; and so does a document that cannot be
    parsed. *)
Theorem parse_all_partners_in_document_order
    (BeautifulSoup : string -> result node) (str_of_tag : node -> string)
    (html_content : string) :
  (forall soup : node,
      BeautifulSoup html_content = Ok soup ->
      exists (places : list path) (rs : list record),
        PartnerScraper.parse_all_partners BeautifulSoup str_of_tag
                                          html_content = Ok rs
        /\ (forall p : path,
               p ∈ places
               <-> p <> []
                   /\ exists td, node_at soup p = Some td
                                 /\ Spec.is_marker td = true)
        /\ StronglySorted Spec.doc_before places
        /\ NoDup places
        /\ Forall2
             (fun p r =>
                PartnerScraper.parse_partner_row BeautifulSoup
                  (PartnerScraper.str_of str_of_tag
                     (find_parent soup "tr" p)) = Ok r)
             places rs
        /\ length rs = length places
        /\ ((forall p td, p <> [] -> node_at soup p = Some td ->
                          Spec.is_marker td = false) -> rs = [])
        /\ (forall name attrs, soup = Tag name attrs [] -> rs = []))
  /\ (forall e,
         BeautifulSoup html_content = Raise e ->
         PartnerScraper.parse_all_partners BeautifulSoup str_of_tag
                                           html_content = Ok []).
Proof.
  split.
  - intros soup Hsoup.
    destruct (parse_all_partners_ok BeautifulSoup str_of_tag _ _ Hsoup)
      as (rs & Hrs & Hrows).
    set (places :=
           (find_all_at "td" (has_class "pl-results-td-row-no") soup).*1)
      in *.
    assert (StronglySorted Spec.doc_before places) as Hsorted
      by apply find_all_at_sorted.
    assert ((forall p td, p <> [] -> node_at soup p = Some td ->
                          Spec.is_marker td = false) -> rs = []) as Hnone.
    { intros Hno. destruct places as [|p places'] eqn:Hplaces.
      - by inversion Hrows.
      - assert (p ∈ places) as Hp by (rewrite Hplaces; left).
        apply elem_of_marker_places in Hp as (Hne & td & Htd & Hm).
        rewrite (Hno p td Hne Htd) in Hm. done. }
    exists places, rs. split; [done|].
    split; [apply elem_of_marker_places|].
    split; [done|]. split; [by apply doc_before_NoDup|].
    split; [done|]. split; [symmetry; by eapply Forall2_length|].
    split; [done|].
    intros name attrs ->. apply Hnone.
    intros [|i p] td Hp Htd; [done|]. by simpl in Htd.
  - intros e He. unfold PartnerScraper.parse_all_partners. by rewrite He.
Qed.

Lemma parse_all_partners_in_document_order_witness :
  exists (places : list path) (rs : list record),
    PartnerScraper.parse_all_partners
      Fixtures.sample_parser Fixtures.row_number_of "page" = Ok rs
    /\ StronglySorted Spec.doc_before places
    /\ length rs = length places.
Proof.
  destruct (proj1 (parse_all_partners_in_document_order
                     Fixtures.sample_parser Fixtures.row_number_of "page")
                  Fixtures.page eq_refl)
    as (places & rs & Hrs & _ & Hsorted & _ & _ & Hlen & _).
  exists places, rs. repeat split; assumption.
Defined.

(** The sample page has two markers, at the places [0;1;0] and [0;2;0]; the
    two records come in that order. *)
Example parse_all_partners_sample :
  (find_all_at "td" (has_class "pl-results-td-row-no") Fixtures.page).*1
  = [[0; 1; 0]; [0; 2; 0]]
  /\ match PartnerScraper.parse_all_partners
             Fixtures.sample_parser Fixtures.row_number_of "page" with
     | Ok rs => Spec.value Spec.Number <$> rs = [Some "1"; Some "2"]
     | Raise _ => False
     end.
Proof. by vm_compute. Qed.

(** * Further properties of the code *)

(** ** [clean_text] *)

Section CleanText.

Import PartnerScraper.
Implicit Types (s t w : string) (c : ascii) (p q : ascii -> bool).

Lemma length_keep p s : String.length (Str.keep p s) <= String.length s.
Proof.
  induction s as [|c s IH]; [done|]. simpl. destruct (p c); simpl; lia.
Qed.

Lemma length_lstrip s : String.length (Str.lstrip s) <= String.length s.
Proof.
  induction s as [|c s IH]; [done|]. simpl.
  destruct (Chr.is_space c); simpl; lia.
Qed.

Lemma length_rstrip s : String.length (Str.rstrip s) <= String.length s.
Proof.
  induction s as [|c s IH]; [done|]. simpl.
  destruct (Chr.is_space c && Str.is_empty (Str.rstrip s)); simpl; lia.
Qed.

Lemma length_sub_space_runs b s :
  String.length (Re.sub_space_runs b s) <= String.length s.
Proof.
  revert b. induction s as [|c s IH]; intros b; [done|]. simpl.
  destruct (Chr.is_space c); [destruct b|]; simpl;
    [specialize (IH true)|specialize (IH true)|specialize (IH false)]; lia.
Qed.

Lemma all_mono p q s :
  (forall c, p c = true -> q c = true) ->
  Str.all p s = true -> Str.all q s = true.
Proof.
  intros Hpq. induction s as [|c s IH]; [done|]. simpl.
  intros [Hc Hs]%andb_true_iff. by rewrite (Hpq c Hc), IH.
Qed.

Lemma all_keep_other p q s :
  Str.all q s = true -> Str.all q (Str.keep p s) = true.
Proof.
  induction s as [|c s IH]; [done|]. simpl.
  intros [Hc Hs]%andb_true_iff.
  destruct (p c); simpl; [rewrite Hc|]; auto.
Qed.

Lemma all_lstrip p s : Str.all p s = true -> Str.all p (Str.lstrip s) = true.
Proof.
  induction s as [|c s IH]; [done|]. simpl.
  destruct (Chr.is_space c); [|done].
  intros [_ Hs]%andb_true_iff. auto.
Qed.

Lemma all_rstrip p s : Str.all p s = true -> Str.all p (Str.rstrip s) = true.
Proof.
  induction s as [|c s IH]; [done|]. simpl.
  intros [Hc Hs]%andb_true_iff.
  destruct (Chr.is_space c && Str.is_empty (Str.rstrip s)); [done|].
  simpl. rewrite Hc. auto.
Qed.

Lemma all_sub_space_runs p b s :
  p " "%char = true ->
  Str.all p s = true -> Str.all p (Re.sub_space_runs b s) = true.
Proof.
  intros Hsp. revert b. induction s as [|c s IH]; intros b; [done|]. simpl.
  intros [Hc Hs]%andb_true_iff.
  destruct (Chr.is_space c); [destruct b|]; simpl;
    rewrite ?Hsp, ?Hc; simpl; by apply IH.
Qed.

Lemma plain_sub_space_runs b s :
  Str.all Shape.plain (Re.sub_space_runs b s) = true.
Proof.
  revert b. induction s as [|c s IH]; intros b; [done|]. simpl.
  destruct (Chr.is_space c) eqn:Hc; [destruct b|]; simpl; auto.
  unfold Shape.plain at 1. rewrite Hc. simpl. auto.
Qed.

Lemma keep_keep p q s :
  (forall c, q c = true -> p c = true) ->
  Str.keep q (Str.keep p s) = Str.keep q s.
Proof.
  intros Hqp. induction s as [|c s IH]; [done|]. simpl.
  destruct (p c) eqn:Hp; simpl; rewrite IH; [done|].
  destruct (q c) eqn:Hq; [|done]. apply Hqp in Hq. congruence.
Qed.

Lemma keep_lstrip q s :
  (forall c, q c = true -> Chr.is_space c = false) ->
  Str.keep q (Str.lstrip s) = Str.keep q s.
Proof.
  intros Hq. induction s as [|c s IH]; [done|]. simpl.
  destruct (Chr.is_space c) eqn:Hc; [|done].
  rewrite IH. destruct (q c) eqn:Hqc; [|done]. apply Hq in Hqc. congruence.
Qed.

Lemma keep_rstrip q s :
  (forall c, q c = true -> Chr.is_space c = false) ->
  Str.keep q (Str.rstrip s) = Str.keep q s.
Proof.
  intros Hq. induction s as [|c s IH]; [done|]. simpl.
  destruct (Chr.is_space c) eqn:Hc; simpl.
  - assert (q c = false) as Hqc.
    { destruct (q c) eqn:Hqc; [|done]. apply Hq in Hqc. congruence. }
    rewrite Hqc. destruct (Str.is_empty (Str.rstrip s)) eqn:He.
    + apply is_empty_true in He. rewrite He in IH. by rewrite <- IH.
    + simpl. by rewrite Hqc.
  - by rewrite IH.
Qed.

Lemma keep_sub_space_runs q b s :
  (forall c, q c = true -> Chr.is_space c = false) ->
  Str.keep q (Re.sub_space_runs b s) = Str.keep q s.
Proof.
  intros Hq.
  assert (q " "%char = false) as Hsp.
  { destruct (q " "%char) eqn:H; [|done]. by apply Hq in H. }
  revert b. induction s as [|c s IH]; intros b; [done|]. simpl.
  destruct (Chr.is_space c) eqn:Hc.
  - assert (q c = false) as Hqc.
    { destruct (q c) eqn:Hqc; [|done]. apply Hq in Hqc. congruence. }
    rewrite Hqc. destruct b; simpl; rewrite ?Hsp; apply IH.
  - simpl. by rewrite IH.
Qed.

(** [clean_text] without the test for the empty string, which changes
    nothing. *)
Lemma clean_text_unfold s :
  clean_text s
  = Str.keep clean_class (Re.sub_space_runs false (Str.strip s)).
Proof.
  unfold clean_text, Re.sub_outside.
  destruct (Str.is_empty s) eqn:He; [|done].
  apply is_empty_true in He. by subst s.
Qed.

Lemma all_clean_text s : Str.all clean_class (clean_text s) = true.
Proof. rewrite clean_text_unfold. apply all_keep. Qed.

Lemma runs_app_word w t :
  Str.all (fun c => negb (Chr.is_space c)) w = true ->
  Str.runs (w ++ t) = (w ++ fst (Str.runs t), snd (Str.runs t)).
Proof.
  induction w as [|c w IH]; simpl.
  - intros _. rewrite str_app_nil_l. by destruct (Str.runs t).
  - intros [Hc Hw]%andb_true_iff. rewrite str_app_cons. simpl.
    rewrite (IH Hw). apply negb_true_iff in Hc. by rewrite Hc.
Qed.

Lemma runs_cons_space_char t :
  Str.runs (String " " t) = ("", Str.words t).
Proof. unfold Str.words. simpl. by destruct (Str.runs t). Qed.

(** Splitting a text that was joined from words gives the words back. *)
Lemma words_join (ws : list string) :
  Forall (fun w => w <> ""
                   /\ Str.all (fun c => negb (Chr.is_space c)) w = true) ws ->
  Str.words (Str.join " " ws) = ws.
Proof.
  induction 1 as [|w ws [Hne Hw] Hws IH]; [done|].
  rewrite join_cons. unfold Str.words. rewrite (runs_app_word _ _ Hw).
  destruct ws as [|x xs].
  - simpl. rewrite str_app_nil_r.
    apply is_empty_false in Hne. by rewrite Hne.
  - change (tail_join (x :: xs)) with (String " " (x ++ tail_join xs)).
    rewrite <- join_cons, runs_cons_space_char, IH. simpl.
    rewrite str_app_nil_r. apply is_empty_false in Hne. by rewrite Hne.
Qed.

(** On a text of allowed characters [clean_text] only normalises the
    whitespace. *)
Lemma clean_text_allowed s :
  Str.all clean_class s = true ->
  clean_text s = Str.join " " (Str.words s).
Proof.
  intros Hs. rewrite clean_text_unfold, <- sub_space_runs_strip.
  apply keep_all, all_sub_space_runs; [done|].
  by apply all_rstrip, all_lstrip.
Qed.

Lemma clean_text_again s :
  Str.all clean_class s = true -> clean_text (clean_text s) = clean_text s.
Proof.
  intros Hs. rewrite (clean_text_allowed s Hs).
  rewrite clean_text_allowed.
  - by rewrite (words_join _ (words_wf s)).
  - rewrite <- (clean_text_allowed s Hs). apply all_clean_text.
Qed.

End CleanText.

(** X1: every whitespace character of the text [clean_text] returns is the
    space: tabs, newlines and the other whitespace characters never
    survive; and a text of whitespace only, the empty one included, gives
    the empty string. *)
Theorem clean_text_only_spaces :
  (forall text : string,
      Str.all Shape.plain (PartnerScraper.clean_text text) = true)
  /\ (forall text : string,
         Str.all Chr.is_space text = true ->
         PartnerScraper.clean_text text = "").
Proof.
  split.
  - intros text. rewrite clean_text_unfold.
    apply all_keep_other, plain_sub_space_runs.
  - intros text Hs. rewrite clean_text_unfold.
    apply strip_nil_iff in Hs. by rewrite Hs.
Qed.

Lemma clean_text_only_spaces_witness :
  PartnerScraper.clean_text (String Chr.tab (String Chr.newline " ")) = "".
Proof.
  exact (proj2 clean_text_only_spaces
           (String Chr.tab (String Chr.newline " ")) eq_refl).
Defined.

(** X2: [clean_text] never returns a text longer than its argument. *)
Theorem clean_text_no_longer (text : string) :
  String.length (PartnerScraper.clean_text text) <= String.length text.
Proof.
  rewrite clean_text_unfold.
  etrans; [apply length_keep|].
  etrans; [apply length_sub_space_runs|].
  unfold Str.strip. etrans; [apply length_rstrip|]. apply length_lstrip.
Qed.

(** X3: on a text whose characters are all allowed, [clean_text] is
    idempotent; on any text a second application reaches a text that a
    third leaves alone; one application is not always enough, since the
    characters it removes can leave spaces at the ends. *)
Theorem clean_text_stabilises :
  (forall text : string,
      Str.all PartnerScraper.clean_class text = true ->
      PartnerScraper.clean_text (PartnerScraper.clean_text text)
      = PartnerScraper.clean_text text)
  /\ (forall text : string,
         PartnerScraper.clean_text
           (PartnerScraper.clean_text (PartnerScraper.clean_text text))
         = PartnerScraper.clean_text (PartnerScraper.clean_text text))
  /\ PartnerScraper.clean_text (PartnerScraper.clean_text "$ a")
     <> PartnerScraper.clean_text "$ a".
Proof.
  split; [apply clean_text_again|]. split.
  - intros text. apply clean_text_again, all_clean_text.
  - vm_compute. discriminate.
Qed.

Lemma clean_text_stabilises_witness :
  PartnerScraper.clean_text (PartnerScraper.clean_text " a,  b ")
  = PartnerScraper.clean_text " a,  b ".
Proof. exact (proj1 clean_text_stabilises " a,  b " eq_refl). Defined.

(** X4: [clean_text] removes and rewrites nothing but whitespace and
    disallowed characters: the allowed characters of the text that are not
    whitespace come out unchanged and in the same order. *)
Theorem clean_text_keeps_visible (text : string) :
  Str.keep Shape.visible (PartnerScraper.clean_text text)
  = Str.keep Shape.visible text.
Proof.
  assert (forall c, Shape.visible c = true -> Chr.is_space c = false) as Hv.
  { intros c [_ H]%andb_true_iff. by apply negb_true_iff. }
  rewrite clean_text_unfold, keep_keep.
  2:{ by intros c [? _]%andb_true_iff. }
  rewrite keep_sub_space_runs by done.
  unfold Str.strip. by rewrite keep_rstrip, keep_lstrip.
Qed.

(** ** [validate_email] *)

Section ValidateEmail.

Import PartnerScraper.
Implicit Types (s t : string) (c : ascii) (p q : ascii -> bool).

Ltac by_cases c := destruct c as [[] [] [] [] [] [] [] []]; by vm_compute.

Lemma chr_lower_idem c : Chr.lower (Chr.lower c) = Chr.lower c.
Proof. by_cases c. Qed.

Lemma chr_lower_space c : Chr.is_space (Chr.lower c) = Chr.is_space c.
Proof. by_cases c. Qed.

Lemma email_domain_local c : email_domain c = true -> email_local c = true.
Proof. by_cases c. Qed.

Lemma email_tld_local c : email_tld c = true -> email_local c = true.
Proof. by_cases c. Qed.

Lemma email_local_not_at c : email_local c = true -> Shape.is_at c = false.
Proof. by_cases c. Qed.

Lemma lower_idem s : Str.lower (Str.lower s) = Str.lower s.
Proof.
  induction s as [|c s IH]; [done|]. unfold Str.lower in *. simpl.
  by rewrite chr_lower_idem, IH.
Qed.

Lemma is_empty_lower s : Str.is_empty (Str.lower s) = Str.is_empty s.
Proof. by destruct s. Qed.

Lemma lower_lstrip s : Str.lower (Str.lstrip s) = Str.lstrip (Str.lower s).
Proof.
  induction s as [|c s IH]; [done|]. unfold Str.lower in *. simpl.
  rewrite chr_lower_space. by destruct (Chr.is_space c).
Qed.

Lemma lower_rstrip s : Str.lower (Str.rstrip s) = Str.rstrip (Str.lower s).
Proof.
  induction s as [|c s IH]; [done|]. unfold Str.lower in *. simpl.
  rewrite chr_lower_space, <- IH.
  change (Str.map Chr.lower (Str.rstrip s)) with (Str.lower (Str.rstrip s)).
  rewrite is_empty_lower.
  by destruct (Chr.is_space c && Str.is_empty (Str.rstrip s)).
Qed.

Lemma lower_strip s : Str.lower (Str.strip s) = Str.strip (Str.lower s).
Proof. unfold Str.strip. by rewrite lower_rstrip, lower_lstrip. Qed.

Lemma rstrip_idem s : Str.rstrip (Str.rstrip s) = Str.rstrip s.
Proof.
  induction s as [|c s IH]; [done|]. simpl.
  destruct (Chr.is_space c && Str.is_empty (Str.rstrip s)) eqn:Hc; [done|].
  simpl. by rewrite IH, Hc.
Qed.

Lemma lstrip_rstrip_lstrip s :
  Str.lstrip (Str.rstrip (Str.lstrip s)) = Str.rstrip (Str.lstrip s).
Proof.
  destruct (lstrip_head s) as [->|(c & t & -> & Hc)]; [done|].
  cbn [Str.rstrip]. rewrite Hc. cbn [andb Str.lstrip]. by rewrite Hc.
Qed.

Lemma strip_idem s : Str.strip (Str.strip s) = Str.strip s.
Proof.
  unfold Str.strip. by rewrite lstrip_rstrip_lstrip, rstrip_idem.
Qed.

Lemma count_app p s t : Str.count p (s ++ t) = Str.count p s + Str.count p t.
Proof.
  induction s as [|c s IH]; [done|]. rewrite str_app_cons. simpl.
  rewrite IH. lia.
Qed.

Lemma count_none p q s :
  (forall c, p c = true -> q c = false) ->
  Str.all p s = true -> Str.count q s = 0.
Proof.
  intros Hpq. induction s as [|c s IH]; [done|]. simpl.
  intros [Hc Hs]%andb_true_iff. by rewrite (Hpq c Hc), IH.
Qed.

(** What [validate_email] returns, in terms of the trimmed lower-case
    text. *)
Lemma validate_email_unfold s :
  validate_email s
  = if Re.match_anchored email_pattern (Str.strip (Str.lower s))
    then Str.strip (Str.lower s) else "".
Proof.
  unfold validate_email. destruct (Str.is_empty s) eqn:He; [|done].
  apply is_empty_true in He. by subst s.
Qed.

Lemma validate_email_cases s :
  (validate_email s = Str.strip (Str.lower s)
   /\ Spec.email_shape (Str.strip (Str.lower s)))
  \/ validate_email s = "".
Proof.
  rewrite validate_email_unfold.
  destruct (Re.match_anchored _ _) eqn:Hm; [left|by right].
  split; [done|]. by apply lang_email_pattern, match_anchored_strip.
Qed.

End ValidateEmail.

(** X5: [validate_email] gives the same answer when its argument is first
    lower-cased or trimmed, and validating its own result changes
    nothing. *)
Theorem validate_email_insensitive (email : string) :
  PartnerScraper.validate_email (PartnerScraper.validate_email email)
  = PartnerScraper.validate_email email
  /\ PartnerScraper.validate_email (Str.lower email)
     = PartnerScraper.validate_email email
  /\ PartnerScraper.validate_email (Str.strip email)
     = PartnerScraper.validate_email email.
Proof.
  split; [|split].
  - rewrite (validate_email_unfold email).
    destruct (Re.match_anchored _ _) eqn:Hm; [|done].
    rewrite validate_email_unfold.
    by rewrite lower_strip, lower_idem, strip_idem, Hm.
  - by rewrite !validate_email_unfold, lower_idem.
  - by rewrite !validate_email_unfold, lower_strip, strip_idem.
Qed.

(** X6: an address that [validate_email] accepts is the trimmed lower-case
    form of the argument; it has at least six characters and exactly one
    at sign, every other character is a letter, a digit or one of
    [. _ % + -], and no letter of it is upper case. *)
Theorem validate_email_accepted (email : string) :
  PartnerScraper.validate_email email <> "" ->
  PartnerScraper.validate_email email = Str.strip (Str.lower email)
  /\ 6 <= String.length (PartnerScraper.validate_email email)
  /\ Str.count Shape.is_at (PartnerScraper.validate_email email) = 1
  /\ Str.all Shape.email_char (PartnerScraper.validate_email email) = true
  /\ Str.lower (PartnerScraper.validate_email email)
     = PartnerScraper.validate_email email.
Proof.
  intros Hne.
  destruct (validate_email_cases email) as [[-> Hshape]|?]; [|done].
  split; [done|].
  destruct Hshape as (l & d & t & Heq & Hl & Hla & Hd & Hda & Ht & Hta).
  assert (forall c, PartnerScraper.email_local c = true ->
                    Shape.email_char c = true) as Hchar.
  { intros c Hc. unfold Shape.email_char. by rewrite Hc. }
  split; [|split; [|split]].
  - rewrite Heq, !str_length_app. simpl.
    destruct l; [done|]. destruct d; [done|]. simpl. lia.
  - rewrite Heq, !count_app.
    rewrite (count_none _ _ l email_local_not_at Hla).
    rewrite (count_none PartnerScraper.email_domain _ d); [|intros c Hc|done].
    2:{ by apply email_local_not_at, email_domain_local. }
    rewrite (count_none PartnerScraper.email_tld _ t); [done|intros c Hc|done].
    by apply email_local_not_at, email_tld_local.
  - rewrite Heq, !str_all_app.
    rewrite (all_mono _ _ l Hchar Hla).
    rewrite (all_mono PartnerScraper.email_domain _ d); [|intros c Hc|done].
    2:{ by apply Hchar, email_domain_local. }
    rewrite (all_mono PartnerScraper.email_tld _ t); [done|intros c Hc|done].
    by apply Hchar, email_tld_local.
  - by rewrite lower_strip, lower_idem.
Qed.

Lemma validate_email_accepted_witness :
  PartnerScraper.validate_email " Jane.Doe@Example.COM" <> ""
  /\ Str.count Shape.is_at
       (PartnerScraper.validate_email " Jane.Doe@Example.COM") = 1.
Proof.
  assert (PartnerScraper.validate_email " Jane.Doe@Example.COM" <> "") as H
    by (vm_compute; discriminate).
  split; [exact H|].
  exact (proj1 (proj2 (proj2
           (validate_email_accepted " Jane.Doe@Example.COM" H)))).
Defined.

(** ** [extract_address_components] *)

Section AddressParts.

Import PartnerScraper.

Lemma stripped_strings_trimmed (n : node) :
  Forall (fun part => part <> "" /\ Str.strip part = part)
         (stripped_strings n).
Proof.
  unfold stripped_strings. apply Forall_forall. intros part Hin.
  apply list_elem_of_In, filter_In in Hin as [Hin Hne].
  apply list_elem_of_In, list_elem_of_fmap in Hin as (x & -> & _).
  split; [|apply strip_idem].
  apply negb_true_iff in Hne. by apply is_empty_false.
Qed.

Lemma strip_filter_trimmed (parts : list string) :
  Forall (fun part => part <> "" /\ Str.strip part = part) parts ->
  Str.strip <$>
    List.filter (fun part => negb (Str.is_empty (Str.strip part))) parts
  = parts.
Proof.
  induction 1 as [|part parts [Hne Hstrip] _ IH]; [done|].
  cbn [List.filter]. rewrite Hstrip. apply is_empty_false in Hne.
  rewrite Hne. cbn [negb]. by rewrite fmap_cons, Hstrip, IH.
Qed.

Lemma split_address_parts_cleaned (parts : list string) :
  exists street city state country,
    split_address_parts parts
    = (clean_text street, clean_text city, clean_text state,
       clean_text country).
Proof.
  unfold split_address_parts.
  destruct (3 <=? length parts)%nat;
    [destruct (length (Str.split "," (nth 2 parts "")) =? 2)%nat|];
    by do 4 eexists.
Qed.

End AddressParts.

(** X7: the parts [extract_address_components] works on are exactly the
    stripped strings of the Address element: the list comprehension of the
    source filters and trims a list that is already free of empty strings
    and trimmed; so no part is empty and none starts or ends with
    whitespace. *)
Theorem address_parts_are_stripped_strings (address_span : node) :
  PartnerScraper.address_parts address_span = stripped_strings address_span
  /\ Forall (fun part => part <> "" /\ Str.strip part = part)
            (PartnerScraper.address_parts address_span).
Proof.
  assert (PartnerScraper.address_parts address_span
          = stripped_strings address_span) as Heq.
  { apply strip_filter_trimmed, stripped_strings_trimmed. }
  split; [done|]. rewrite Heq. apply stripped_strings_trimmed.
Qed.

(** X8: whatever it is given, [extract_address_components] returns four
    components that went through [clean_text]: each consists of allowed
    characters only. *)
Theorem extract_address_components_allowed (address_td : option node) :
  exists street city region country : string,
    PartnerScraper.extract_address_components address_td
    = Ok (street, city, region, country)
    /\ Str.all PartnerScraper.clean_class street = true
    /\ Str.all PartnerScraper.clean_class city = true
    /\ Str.all PartnerScraper.clean_class region = true
    /\ Str.all PartnerScraper.clean_class country = true.
Proof.
  assert (exists street city region country : string,
             @Ok PartnerScraper.address PartnerScraper.no_address
             = Ok (street, city, region, country)
             /\ Str.all PartnerScraper.clean_class street = true
             /\ Str.all PartnerScraper.clean_class city = true
             /\ Str.all PartnerScraper.clean_class region = true
             /\ Str.all PartnerScraper.clean_class country = true) as Hnone.
  { by exists "", "", "", "". }
  destruct address_td as [td|]; [|exact Hnone].
  unfold PartnerScraper.extract_address_components.
  destruct (negb (truthy td)); [exact Hnone|].
  destruct td as [text|text|name attrs contents]; try exact Hnone.
  simpl. destruct (find _ _ _) as [address_span|]; [|exact Hnone].
  simpl.
  destruct (split_address_parts_cleaned
              (PartnerScraper.address_parts address_span))
    as (a & b & c & d & ->).
  do 4 eexists. split; [reflexivity|]. repeat split; apply all_clean_text.
Qed.

(** ** The fields of a row *)

Section Fields.

Import PartnerScraper.
Implicit Types (s t : string) (c : ascii) (p : ascii -> bool).

Ltac by_cases c := destruct c as [[] [] [] [] [] [] [] []]; by vm_compute.

Lemma digit_allowed c : Chr.is_digit c = true -> clean_class c = true.
Proof. by_cases c. Qed.

Lemma digit_not_space c : Chr.is_digit c = true -> Chr.is_space c = false.
Proof. by_cases c. Qed.

Lemma search_Some {A} (match_here : string -> option A) s g :
  Re.search match_here s = Some g -> exists t, match_here t = Some g.
Proof.
  induction s as [|c s IH]; simpl.
  - destruct (match_here "") eqn:H; [|done]. intros [= ->]. eauto.
  - destruct (match_here (String c s)) eqn:H; [intros [= ->]; eauto|done].
Qed.

Lemma search_here {A} (match_here : string -> option A) s g :
  match_here s = Some g -> Re.search match_here s = Some g.
Proof. intros H. destruct s; simpl; by rewrite H. Qed.

Lemma all_span p s : Str.all p (fst (Str.span p s)) = true.
Proof.
  induction s as [|c s IH]; [done|]. simpl.
  destruct (p c) eqn:Hc; [|done].
  destruct (Str.span p s). simpl in *. by rewrite Hc.
Qed.

(** The longest prefix in [p] of a text that starts with [a], all in [p],
    and goes on with a character outside [p] is [a]. *)
Lemma span_prefix p a t :
  Str.all p a = true ->
  (forall c t', t = String c t' -> p c = false) ->
  Str.span p (a ++ t) = (a, t).
Proof.
  intros Ha Ht. induction a as [|c a IH].
  - rewrite str_app_nil_l. destruct t as [|c t']; [done|].
    simpl. by rewrite (Ht c t').
  - simpl in Ha. apply andb_true_iff in Ha as [Hc Ha].
    rewrite str_app_cons. simpl. by rewrite Hc, (IH Ha).
Qed.

Lemma sort_score_here_decimal t g :
  Re.sort_score_here t = Some g -> Shape.decimal g.
Proof.
  unfold Re.sort_score_here.
  destruct (String.prefix "sortScore" t); [|done].
  destruct (Re.skip_spaces (Str.drop 9 t)) as [|c r]; [done|].
  destruct c as [[] [] [] [] [] [] [] []]; try done.
  pose proof (all_span Chr.is_digit (Re.skip_spaces r)) as Hint.
  destruct (Str.span Chr.is_digit (Re.skip_spaces r)) as [int_part r1].
  simpl in Hint.
  destruct (Str.is_empty int_part) eqn:He; [done|].
  apply is_empty_false in He.
  destruct r1 as [|c r2].
  { intros [= <-]. exists int_part, "". auto. }
  pose proof (all_span Chr.is_digit r2) as Hfrac.
  destruct c as [[] [] [] [] [] [] [] []];
    intros [= <-];
    first [ by exists int_part, ""; auto
          | exists int_part, (fst (Str.span Chr.is_digit r2)); auto ].
Qed.

Lemma locations_here_digits t g :
  Re.locations_here t = Some g -> Shape.digits g.
Proof.
  unfold Re.locations_here.
  destruct (String.prefix "Locations:" t); [|done].
  pose proof (all_span Chr.is_digit (Re.skip_spaces (Str.drop 10 t))) as Hd.
  destruct (Str.is_empty _) eqn:He; [done|].
  apply is_empty_false in He. intros [= <-]. by split.
Qed.

Lemma decimal_allowed g : Shape.decimal g -> Str.all clean_class g = true.
Proof.
  intros (i & f & _ & Hi & Hf & [-> | ->]).
  - by apply (all_mono _ _ _ digit_allowed).
  - rewrite !str_all_app.
    rewrite (all_mono _ _ _ digit_allowed Hi).
    by rewrite (all_mono _ _ _ digit_allowed Hf).
Qed.

Lemma all_join p sep (l : list string) :
  Str.all p sep = true ->
  Forall (fun x => Str.all p x = true) l ->
  Str.all p (Str.join sep l) = true.
Proof.
  intros Hsep. induction 1 as [|x l Hx Hl IH]; [done|].
  destruct l as [|y l]; [done|].
  change (Str.join sep (x :: y :: l))
    with (x ++ sep ++ Str.join sep (y :: l)).
  by rewrite !str_all_app, Hx, Hsep, IH.
Qed.

(** The nine fields that hold normalised text or digits. *)
Lemma extract_fields_allowed soup f :
  f <> Spec.ContactEmail -> f <> Spec.ContactWebsite ->
  exists v, Spec.value f (extract_fields soup) = Some v
            /\ Str.all clean_class v = true.
Proof.
  intros Hemail Hweb.
  destruct f; try done; (eexists; split; [reflexivity|]); cbv zeta.
  - destruct (find _ _ _); [apply all_clean_text|done].
  - destruct (find _ _ _); [|done].
    destruct (Re.search Re.sort_score_here _) eqn:Hs; [|done].
    apply search_Some in Hs as [t Ht].
    by eapply decimal_allowed, sort_score_here_decimal.
  - destruct (find _ _ _); [apply all_clean_text|done].
  - destruct (find _ _ _); [|done].
    apply all_join; [done|]. apply Forall_fmap, Forall_forall.
    intros item _. apply all_clean_text.
  - destruct (find _ _ _) as [info|]; [|done].
    destruct (find _ _ info); [|done].
    destruct (Re.search Re.locations_here _) eqn:Hs; [|done].
    apply search_Some in Hs as [t Ht].
    apply locations_here_digits in Ht as [_ Ht].
    by apply (all_mono _ _ _ digit_allowed).
  - destruct (find _ _ _) as [address_span|]; [|done].
    destruct (find _ _ address_span); [apply all_clean_text|done].
  - destruct (find _ _ _) as [contact|]; [|done].
    destruct (find _ _ contact); [apply all_clean_text|done].
  - destruct (find _ _ _) as [phone|]; [|done].
    destruct (find _ _ phone); [apply all_clean_text|done].
  - apply all_join; [done|]. apply Forall_forall. intros x Hx.
    apply sorted_elements in Hx.
    destruct (find _ _ _) as [spec_container|].
    + apply elem_of_foldl_add_specialization in Hx
        as [Hx|(_ & li & _ & <-)]; [by apply elem_of_empty in Hx|].
      apply all_clean_text.
    + by apply elem_of_empty in Hx.
Qed.

Lemma empty_record_value f : Spec.value f empty_record = Some "".
Proof. by destruct f. Qed.

End Fields.

(** X9: in every record [parse_partner_row] returns, each field other than
    ContactEmail and ContactWebsite consists of allowed characters only:
    letters, digits, underscore, whitespace and [. , ; ? ! @ - _ + ( ) / #]. *)
Theorem parse_partner_row_sanitised
    (BeautifulSoup : string -> result node) (html_snippet : string) :
  exists r : record,
    PartnerScraper.parse_partner_row BeautifulSoup html_snippet = Ok r
    /\ forall f : Spec.field,
        f = Spec.ContactEmail \/ f = Spec.ContactWebsite
        \/ exists v, Spec.value f r = Some v
                     /\ Str.all PartnerScraper.clean_class v = true.
Proof.
  destruct (parse_partner_row_cases BeautifulSoup html_snippet)
    as [(soup & _ & ->)|(e & _ & ->)]; eexists; (split; [reflexivity|]).
  - intros f.
    destruct f;
      first [ by left | by right; left
            | right; right; by apply extract_fields_allowed ].
  - intros f. right; right. exists "".
    split; [apply empty_record_value|done].
Qed.

(** X10: in every record, SiemensBatch is empty or a decimal numeral
    (digits, then possibly a dot and further digits), and Locations is
    empty or a non-empty run of digits. *)
Theorem batch_and_locations_numeric
    (BeautifulSoup : string -> result node) (html_snippet : string) :
  exists (r : record) (batch locations : string),
    PartnerScraper.parse_partner_row BeautifulSoup html_snippet = Ok r
    /\ Spec.value Spec.SiemensBatch r = Some batch
    /\ (batch = "" \/ Shape.decimal batch)
    /\ Spec.value Spec.Locations r = Some locations
    /\ (locations = "" \/ Shape.digits locations).
Proof.
  destruct (parse_partner_row_cases BeautifulSoup html_snippet)
    as [(soup & _ & ->)|(e & _ & ->)].
  2:{ exists PartnerScraper.empty_record, "", "".
      repeat split; try reflexivity; by left. }
  do 3 eexists. split; [reflexivity|].
  split; [reflexivity|]. split; [|split; [reflexivity|]]; cbv zeta.
  - destruct (find _ _ _); [|by left].
    destruct (Re.search Re.sort_score_here _) eqn:Hs; [|by left].
    apply search_Some in Hs as [t Ht].
    right. by eapply sort_score_here_decimal.
  - destruct (find _ _ _) as [info|]; [|by left].
    destruct (find _ _ info); [|by left].
    destruct (Re.search Re.locations_here _) eqn:Hs; [|by left].
    apply search_Some in Hs as [t Ht].
    right. by eapply locations_here_digits.
Qed.

(** X11: in every record, ContactEmail is empty or has the shape of an
    accepted address, and ContactWebsite is empty or starts with [http://]
    or [https://]. *)
Theorem email_and_website_validated
    (BeautifulSoup : string -> result node) (html_snippet : string) :
  exists (r : record) (email website : string),
    PartnerScraper.parse_partner_row BeautifulSoup html_snippet = Ok r
    /\ Spec.value Spec.ContactEmail r = Some email
    /\ (email = "" \/ Spec.email_shape email)
    /\ Spec.value Spec.ContactWebsite r = Some website
    /\ (website = "" \/ Spec.has_http_scheme website).
Proof.
  destruct (parse_partner_row_cases BeautifulSoup html_snippet)
    as [(soup & _ & ->)|(e & _ & ->)].
  2:{ exists PartnerScraper.empty_record, "", "".
      repeat split; try reflexivity; by left. }
  do 3 eexists. split; [reflexivity|].
  split; [reflexivity|]. split; [|split; [reflexivity|]]; cbv zeta.
  - destruct (find _ _ _) as [email_span|]; [|by left].
    destruct (find _ _ email_span) as [mailto|]; [|by left].
    destruct (validate_email_cases (get_text mailto)) as [[-> ?]| ->];
      [by right|by left].
  - destruct (find _ _ _) as [website_span|]; [|by left].
    destruct (find _ _ website_span) as [web_link|]; [|by left].
    destruct (Str.startswith_any _ _) eqn:Hs; [|by left].
    right. by apply startswith_http.
Qed.

Section LocationsLabel.

Lemma drop_app_length (a t : string) : Str.drop (String.length a) (a ++ t) = t.
Proof. induction a as [|c a IH]; [by destruct t|]. by rewrite str_app_cons. Qed.

Lemma locations_here_label (ws n rest : string) :
  Str.all Chr.is_space ws = true ->
  n <> "" -> Str.all Chr.is_digit n = true ->
  (forall c t, rest = String c t -> Chr.is_digit c = false) ->
  Re.locations_here ("Locations:" ++ ws ++ n ++ rest) = Some n.
Proof.
  intros Hws Hne Hn Hrest. unfold Re.locations_here.
  assert (String.prefix "Locations:" ("Locations:" ++ ws ++ n ++ rest) = true)
    as -> by (apply prefix_iff; eauto).
  rewrite (drop_app_length "Locations:").
  unfold Re.skip_spaces. rewrite (span_prefix _ ws (n ++ rest) Hws).
  2:{ intros c t Heq. destruct n as [|d n]; [done|].
      rewrite str_app_cons in Heq. injection Heq as -> _.
      simpl in Hn. apply andb_true_iff in Hn as [Hd _].
      by apply digit_not_space. }
  simpl. rewrite (span_prefix _ n rest Hn Hrest). simpl.
  apply is_empty_false in Hne. by rewrite Hne.
Qed.

End LocationsLabel.

(** X12: when the text of the count label, with its strings trimmed, reads
    [Locations:], optional whitespace, digits, and then nothing or a
    character that is not a digit, the Locations field is those digits. *)
Theorem locations_of_count_label
    (BeautifulSoup : string -> result node) (html_snippet : string)
    (soup info count_span : node) (ws n rest : string) :
  BeautifulSoup html_snippet = Ok soup ->
  find "span" (has_class "pl-results-partner-info") soup = Some info ->
  find "span" (has_class "pl-results-partner-count") info
  = Some count_span ->
  get_text_strip count_span = "Locations:" ++ ws ++ n ++ rest ->
  Str.all Chr.is_space ws = true ->
  n <> "" -> Str.all Chr.is_digit n = true ->
  (forall c t, rest = String c t -> Chr.is_digit c = false) ->
  exists r : record,
    PartnerScraper.parse_partner_row BeautifulSoup html_snippet = Ok r
    /\ Spec.value Spec.Locations r = Some n.
Proof.
  intros Hsoup Hinfo Hcount Htext Hws Hne Hn Hrest.
  exists (PartnerScraper.extract_fields soup).
  split; [by apply parse_partner_row_ok|].
  unfold Spec.value, PartnerScraper.extract_fields.
  cbn [dict_get Spec.column String.eqb Ascii.eqb Bool.eqb].
  rewrite Hinfo, Hcount. cbv zeta. rewrite Htext.
  by rewrite (search_here _ _ n
                (locations_here_label ws n rest Hws Hne Hn Hrest)).
Qed.

Lemma locations_of_count_label_witness :
  exists r : record,
    PartnerScraper.parse_partner_row
      (Fixtures.parser_of (Fixtures.row "https://x.com")) "<tr>" = Ok r
    /\ Spec.value Spec.Locations r = Some "12".
Proof.
  refine (locations_of_count_label
            (Fixtures.parser_of (Fixtures.row "https://x.com")) "<tr>"
            (Fixtures.row "https://x.com")
            (Fixtures.labelled "pl-results-partner-info"
               [ Fixtures.text_in "span" "pl-results-partner-count"
                   "Locations: 12" ])
            (Fixtures.text_in "span" "pl-results-partner-count"
               "Locations: 12")
            " " "12" "" eq_refl eq_refl eq_refl eq_refl eq_refl _ eq_refl _).
  - discriminate.
  - intros c t H. discriminate H.
Defined.

(** ** [parse_all_partners] *)

Section Rows.

Import PartnerScraper.

Local Open Scope list_scope.

Lemma parse_partner_row_keys BeautifulSoup html r :
  parse_partner_row BeautifulSoup html = Ok r -> r.*1 = required_fields.
Proof.
  destruct (parse_partner_row_cases BeautifulSoup html)
    as [(soup & _ & ->)|(e & _ & ->)]; by intros [= <-].
Qed.

Lemma parse_all_partners_rows BeautifulSoup str_of_tag html :
  exists rs,
    parse_all_partners BeautifulSoup str_of_tag html = Ok rs
    /\ Forall (fun r : record => r.*1 = required_fields) rs.
Proof.
  destruct (BeautifulSoup html) as [soup|e] eqn:Hsoup.
  - destruct (parse_all_partners_ok BeautifulSoup str_of_tag _ _ Hsoup)
      as (rs & Hrs & Hrows).
    exists rs. split; [done|].
    clear Hrs. induction Hrows as [|p r places rs Hr _ IH]; [constructor|].
    constructor; [|done]. by eapply parse_partner_row_keys.
  - exists []. split; [|constructor].
    unfold parse_all_partners. by rewrite Hsoup.
Qed.

Lemma parents_snoc (q : path) (i : nat) : parents (q ++ [i]) = q :: parents q.
Proof.
  induction q as [|a q IH]; [done|]. simpl. by rewrite IH.
Qed.

Lemma node_at_app (root : node) (q s : path) :
  node_at root (q ++ s) = node_at root q ≫= fun a => node_at a s.
Proof.
  revert root. induction q as [|i q IH]; intros root; [done|]. simpl.
  destruct root as [| |name attrs contents]; [done..|].
  destruct (contents !! i); [apply IH|done].
Qed.

Lemma find_parent_snoc (root : node) (name : string) (q : path) (i : nat) :
  find_parent root name (q ++ [i])
  = match node_at root q with
    | Some a => if is_tag name a then Some a else find_parent root name q
    | None => find_parent root name q
    end.
Proof.
  unfold find_parent. rewrite parents_snoc. simpl.
  destruct (node_at root q) as [a|]; [|done]. by destruct (is_tag name a).
Qed.

(** A place that ends inside [q ++ [i]] is [q] itself or ends inside [q]. *)
Lemma proper_prefix_snoc (q q' s' : path) (i : nat) :
  q ++ [i] = q' ++ s' -> s' <> [] ->
  q' = q \/ exists s'', s'' <> [] /\ q = q' ++ s''.
Proof.
  intros Heq Hne.
  destruct (decide (s' = [])) as [?|_]; [done|].
  destruct s' as [|j s' _] using rev_ind; [done|].
  rewrite app_assoc in Heq. apply app_inj_tail in Heq as [-> _].
  destruct s' as [|k s']; [left; by rewrite app_nil_r|].
  right. by exists (k :: s').
Qed.

End Rows.

(** X13: [parse_all_partners] never raises, and every record of the list
    it returns has the eleven columns of [required_fields], in that order:
    the table built from it has no missing cell. *)
Theorem parse_all_partners_total
    (BeautifulSoup : string -> result node) (str_of_tag : node -> string)
    (html_content : string) :
  exists rs : list record,
    PartnerScraper.parse_all_partners BeautifulSoup str_of_tag html_content
    = Ok rs
    /\ Forall (fun r : record =>
                 r.*1 = PartnerScraper.required_fields
                 /\ forall f : Spec.field, exists v, Spec.value f r = Some v)
              rs.
Proof.
  destruct (parse_all_partners_rows BeautifulSoup str_of_tag html_content)
    as (rs & Hrs & Hrows).
  exists rs. split; [done|].
  eapply Forall_impl; [exact Hrows|].
  intros r Hr. split; [done|]. by apply value_of_columns.
Qed.

(** X14: the row [find_parent] returns for a marker is the nearest tag of
    that name above the marker: it lies on the way from the root to the
    marker, it contains the marker, and no tag of that name lies between
    the two; [find_parent] returns nothing only when no tag of that name
    lies above the marker. *)
Theorem find_parent_nearest :
  (forall (root : node) (name : string) (p : path) (tr : node),
      find_parent root name p = Some tr ->
      exists q s : path,
        p = (q ++ s)%list /\ s <> []
        /\ node_at root q = Some tr
        /\ is_tag name tr = true
        /\ node_at root p = node_at tr s
        /\ forall (q' s' : path) (a : node),
            p = (q' ++ s')%list -> s' <> [] -> length q < length q' ->
            node_at root q' = Some a -> is_tag name a = false)
  /\ (forall (root : node) (name : string) (p : path),
         find_parent root name p = None ->
         forall (q s : path) (a : node),
           p = (q ++ s)%list -> s <> [] ->
           node_at root q = Some a -> is_tag name a = false).
Proof.
  split.
  - intros root name p. induction p as [|i p IH] using rev_ind; intros tr.
    { by unfold find_parent. }
    rewrite find_parent_snoc.
    destruct (node_at root p) as [a|] eqn:Ha;
      [destruct (is_tag name a) eqn:Htag|].
    + intros [= <-]. exists p, [i]. split; [done|]. split; [done|].
      split; [done|]. split; [done|]. split.
      { by rewrite node_at_app, Ha. }
      intros q' s' b Heq Hs' Hlen _.
      apply (f_equal length) in Heq. rewrite !length_app in Heq.
      destruct s'; [done|]. simpl in Heq. lia.
    + intros (q & s & -> & Hs & Hq & Htr & Hp & Hnear)%IH.
      exists q, (s ++ [i])%list. split; [by rewrite app_assoc|].
      split; [by destruct s|]. split; [done|]. split; [done|]. split.
      { by rewrite <- app_assoc, node_at_app, Hq. }
      intros q' s' b Heq Hs' Hlen Hb.
      destruct (proper_prefix_snoc _ _ _ _ Heq Hs')
        as [->|(s'' & Hs'' & Heq')].
      * congruence.
      * by eapply Hnear.
    + intros (q & s & -> & Hs & Hq & Htr & Hp & Hnear)%IH.
      exists q, (s ++ [i])%list. split; [by rewrite app_assoc|].
      split; [by destruct s|]. split; [done|]. split; [done|]. split.
      { by rewrite <- app_assoc, node_at_app, Hq. }
      intros q' s' b Heq Hs' Hlen Hb.
      destruct (proper_prefix_snoc _ _ _ _ Heq Hs')
        as [->|(s'' & Hs'' & Heq')].
      * congruence.
      * by eapply Hnear.
  - intros root name p. induction p as [|i p IH] using rev_ind.
    { intros _ q s a Heq Hs. symmetry in Heq.
      apply app_eq_nil in Heq as [_ ->]. done. }
    rewrite find_parent_snoc. intros Hnone q s a Heq Hs Ha.
    destruct (proper_prefix_snoc _ _ _ _ Heq Hs)
      as [->|(s'' & Hs'' & Heq')].
    + rewrite Ha in Hnone. by destruct (is_tag name a).
    + eapply IH; [|done..].
      destruct (node_at root p) as [b|]; [|done].
      by destruct (is_tag name b).
Qed.

Lemma find_parent_nearest_witness :
  exists q s : path,
    [0; 1; 1; 0; 0; 0] = (q ++ s)%list /\ s <> []
    /\ node_at Fixtures.page q
       = Some (Tag "tr" [] [ Tag "td" [] [ NavigableString "x" ] ])
    /\ node_at Fixtures.page [0; 1; 1; 0; 0; 0]
       = node_at (Tag "tr" [] [ Tag "td" [] [ NavigableString "x" ] ]) s.
Proof.
  destruct (proj1 find_parent_nearest Fixtures.page "tr" [0; 1; 1; 0; 0; 0]
              (Tag "tr" [] [ Tag "td" [] [ NavigableString "x" ] ]) eq_refl)
    as (q & s & Heq & Hs & Hq & _ & Hp & _).
  exists q, s. repeat split; assumption.
Defined.

(** ** The summary and the column widths *)

Section Table.

Import PartnerScraper Pandas Report.

Local Open Scope list_scope.

Local Abbreviation full := (fun r : record => r.*1 = required_fields).

Lemma columns_step_full (r : record) :
  full r ->
  foldl add_column [] r.*1 = required_fields
  /\ foldl add_column required_fields r.*1 = required_fields.
Proof. intros ->. by vm_compute. Qed.

Lemma columns_full (df : DataFrame) :
  df <> [] -> Forall full df -> columns df = required_fields.
Proof.
  unfold columns. destruct df as [|r df]; [done|]. intros _ Hdf.
  apply Forall_cons in Hdf as [Hr Hdf]. simpl.
  rewrite (proj1 (columns_step_full r Hr)).
  induction Hdf as [|r' df Hr' _ IH]; [done|]. simpl.
  by rewrite (proj2 (columns_step_full r' Hr')).
Qed.

Lemma dict_get_Some (key : string) (r : record) :
  key ∈ r.*1 -> is_Some (dict_get key r).
Proof.
  induction r as [|[k v] r IH]; simpl.
  - by intros ?%elem_of_nil.
  - destruct (String.eqb_spec k key) as [->|Hne]; [by eexists|].
    intros [?|?]%elem_of_cons; [congruence|auto].
Qed.

Lemma notna_sum_full (key : string) (df : DataFrame) :
  key ∈ required_fields -> Forall full df ->
  notna_sum (cells key df) = length df.
Proof.
  intros Hkey. unfold notna_sum, cells.
  induction 1 as [|r df Hr _ IH]; [done|].
  rewrite fmap_cons. cbn [List.filter].
  destruct (dict_get_Some key r) as [v ->]; [by rewrite Hr|].
  simpl. by rewrite IH.
Qed.

Lemma dropna_full (key : string) (df : DataFrame) :
  key ∈ required_fields -> Forall full df ->
  length (dropna (cells key df)) = length df.
Proof.
  intros Hkey. unfold dropna, cells.
  induction 1 as [|r df Hr _ IH]; [done|].
  rewrite fmap_cons. simpl.
  destruct (dict_get_Some key r) as [v ->]; [by rewrite Hr|].
  simpl. f_equal. exact IH.
Qed.

Lemma size_list_to_set_le (l : list string) :
  size (list_to_set l : gset string) <= length l.
Proof.
  induction l as [|x l IH].
  - by rewrite list_to_set_nil, size_empty.
  - rewrite list_to_set_cons, size_union_alt, size_singleton. simpl.
    assert (size (list_to_set l ∖ {[x]} : gset string)
            <= size (list_to_set l : gset string)).
    { apply subseteq_size, subseteq_difference_l. done. }
    lia.
Qed.

Lemma size_pos (X : gset string) (x : string) : x ∈ X -> 1 <= size X.
Proof.
  intros Hx. assert (size X <> 0); [|lia].
  apply size_non_empty_iff. intros Hempty.
  apply (not_elem_of_empty (C := gset string) x). by rewrite <- Hempty.
Qed.

Lemma column_full (key : string) (df : DataFrame) :
  df <> [] -> Forall full df ->
  existsb (String.eqb key) required_fields = true ->
  column key df = Ok (cells key df).
Proof.
  intros Hne Hdf Hkey. unfold column.
  by rewrite (columns_full df Hne Hdf), Hkey.
Qed.

(** The summary of a table without missing cells. *)
Lemma summary_full (df : DataFrame) :
  df <> [] -> Forall full df ->
  summary df
  = Ok [ ("Total Partners", length df);
         ("Unique Batches", nunique (cells "Partner Batch" df));
         ("Partners with Email", length df);
         ("Partners with Phone", length df);
         ("Unique Specializations",
          size (specialization_set
                  (dropna (cells "Proced Specialization" df)))) ].
Proof.
  intros Hne Hdf. unfold summary.
  rewrite !(column_full _ df Hne Hdf) by reflexivity. simpl.
  rewrite !notna_sum_full; try done; by apply (bool_decide_unpack _).
Qed.

Lemma nunique_bounds (key : string) (df : DataFrame) :
  key ∈ required_fields -> df <> [] -> Forall full df ->
  1 <= nunique (cells key df) <= length df.
Proof.
  intros Hkey Hne Hdf. unfold nunique. split.
  - destruct df as [|r df]; [done|].
    apply Forall_cons in Hdf as [Hr _].
    destruct (dict_get_Some key r) as [v Hv]; [by rewrite Hr|].
    apply (size_pos _ v), elem_of_list_to_set.
    unfold dropna, cells. rewrite fmap_cons. simpl. rewrite Hv. left.
  - etrans; [apply size_list_to_set_le|]. by rewrite dropna_full.
Qed.

Lemma specialization_set_pos (df : DataFrame) :
  df <> [] -> Forall full df ->
  1 <= size (specialization_set
               (dropna (cells "Proced Specialization" df))).
Proof.
  intros Hne Hdf. destruct df as [|r df]; [done|].
  apply Forall_cons in Hdf as [Hr _].
  destruct (dict_get_Some "Proced Specialization" r) as [v Hv].
  { rewrite Hr. by apply (bool_decide_unpack _). }
  unfold dropna, cells. rewrite fmap_cons. simpl. rewrite Hv. simpl.
  pose proof (split_length "," v) as Hlen.
  destruct (Str.split "," v) as [|piece pieces] eqn:Hsplit; [done|].
  apply (size_pos _ (Str.strip piece)), elem_of_list_to_set.
  rewrite bind_cons, Hsplit, fmap_cons. apply elem_of_app. left. left.
Qed.

Lemma series_max_ge (series : list nat) (m : nat) :
  series_max series = Some m -> Forall (fun x => x <= m) series.
Proof.
  destruct series as [|x rest]; [done|]. simpl. intros [= <-].
  assert (forall a, a <= foldl Nat.max a rest
                    /\ Forall (fun y => y <= foldl Nat.max a rest) rest)
    as Hfold.
  { induction rest as [|y rest IH]; intros a; simpl; [by split|].
    destruct (IH (Nat.max a y)) as [H1 H2].
    split; [lia|]. constructor; [lia|done]. }
  destruct (Hfold x). by constructor.
Qed.

End Table.

(** X15: for a table without missing cells, as [parse_all_partners]
    produces, the summary counts every row as a partner with e-mail and as
    a partner with phone, whether the fields are empty or not: both counts
    equal the total.  The number of unique batches lies between one and the
    total, and the number of unique specializations is at least one, the
    empty specialization counting as one. *)
Theorem summary_counts_every_row (df : Pandas.DataFrame) :
  df <> [] ->
  Forall (fun r : record => r.*1 = PartnerScraper.required_fields) df ->
  exists batches specializations : nat,
    Report.summary df
    = Ok [ ("Total Partners", length df);
           ("Unique Batches", batches);
           ("Partners with Email", length df);
           ("Partners with Phone", length df);
           ("Unique Specializations", specializations) ]
    /\ 1 <= batches <= length df
    /\ 1 <= specializations.
Proof.
  intros Hne Hdf. do 2 eexists.
  split; [by apply summary_full|]. split.
  - apply nunique_bounds; [|done..]. by apply (bool_decide_unpack _).
  - by apply specialization_set_pos.
Qed.

Lemma summary_counts_every_row_witness :
  exists batches specializations : nat,
    Report.summary
      [ PartnerScraper.extract_fields Fixtures.row_with_blank_specialization;
        PartnerScraper.empty_record ]
    = Ok [ ("Total Partners", 2);
           ("Unique Batches", batches);
           ("Partners with Email", 2);
           ("Partners with Phone", 2);
           ("Unique Specializations", specializations) ].
Proof.
  destruct (summary_counts_every_row
              [ PartnerScraper.extract_fields
                  Fixtures.row_with_blank_specialization;
                PartnerScraper.empty_record ])
    as (batches & specializations & Hsummary & _).
  - discriminate.
  - repeat constructor.
  - exists batches, specializations. exact Hsummary.
Defined.

(** X16: what [main] reports for the rows [parse_all_partners] returns:
    with no row there is no report; otherwise the summary is computed
    without a [KeyError], the exported table has the eleven columns, and
    the counts of partners with e-mail and with phone both equal the number
    of rows. *)
Theorem report_of_parsed_rows
    (BeautifulSoup : string -> result node) (str_of_tag : node -> string)
    (html_content : string) :
  exists rs : list record,
    PartnerScraper.parse_all_partners BeautifulSoup str_of_tag html_content
    = Ok rs
    /\ ((rs = [] /\ Report.report rs = Ok None)
        \/ exists widths summary,
            Report.report rs = Ok (Some (rs, widths, summary))
            /\ widths.*1 = PartnerScraper.required_fields
            /\ Report.count_of "Total Partners" summary = Some (length rs)
            /\ Report.count_of "Partners with Email" summary
               = Some (length rs)
            /\ Report.count_of "Partners with Phone" summary
               = Some (length rs)).
Proof.
  destruct (parse_all_partners_rows BeautifulSoup str_of_tag html_content)
    as (rs & Hrs & Hrows).
  exists rs. split; [done|].
  destruct rs as [|r rs]; [by left|]. right.
  unfold Report.report.
  rewrite bool_decide_eq_false_2 by done.
  rewrite summary_full by done. simpl.
  do 2 eexists. split; [reflexivity|]. split; [|done].
  unfold Report.column_widths. rewrite columns_full by done.
  by rewrite <- list_fmap_compose.
Qed.

(** X17: the width [format_excel] gives a column is at least two and at
    most fifty; below fifty it leaves two characters more than the header
    and than every cell of the column. *)
Theorem adjusted_width_fits
    (header : string) (series : list (option string)) :
  2 <= Report.adjusted_width header series <= 50
  /\ (Report.adjusted_width header series < 50 ->
      String.length header + 2 <= Report.adjusted_width header series
      /\ Forall (fun v =>
                   String.length (Pandas.astype_str v) + 2
                   <= Report.adjusted_width header series)
                series).
Proof.
  unfold Report.adjusted_width.
  destruct (Pandas.series_max _) as [longest|] eqn:Hmax.
  - apply series_max_ge in Hmax. rewrite Forall_fmap in Hmax.
    split; [lia|]. intros Hlt. split; [lia|].
    eapply Forall_impl; [exact Hmax|]. intros v Hv. simpl in Hv. lia.
  - split; [lia|]. intros Hlt. split; [lia|].
    by destruct series.
Qed.

Lemma adjusted_width_fits_witness :
  String.length "Name" + 2 <= Report.adjusted_width "Name" [Some "Acme Health"]
  /\ Forall (fun v =>
               String.length (Pandas.astype_str v) + 2
               <= Report.adjusted_width "Name" [Some "Acme Health"])
            [Some "Acme Health"].
Proof.
  apply (proj2 (adjusted_width_fits "Name" [Some "Acme Health"])).
  vm_compute. lia.
Defined.

(** ** Joining and splitting the specializations *)

Section JoinSplit.

Lemma split_app_sep (e t : string) :
  Str.count Spec.is_comma e = 0 ->
  Str.split "," (e ++ String "," t) = e :: Str.split "," t.
Proof.
  induction e as [|c e IH]; [done|]. rewrite str_app_cons. simpl.
  unfold Spec.is_comma at 1.
  destruct (Ascii.eqb c ","); [done|]. simpl. intros He.
  by rewrite (IH He).
Qed.

(** Splitting at the commas what was joined with comma and space gives the
    entries back, each but the first behind a space. *)
Lemma split_join (e : string) (es : list string) :
  Forall (fun x => Str.count Spec.is_comma x = 0) (e :: es) ->
  Str.split "," (Str.join ", " (e :: es)) = e :: (String " " <$> es).
Proof.
  revert e. induction es as [|x es IH]; intros e He.
  - apply Forall_cons in He as [He _].
    change (Str.join ", " [e]) with e.
    by rewrite split_no_sep.
  - apply Forall_cons in He as [He Hes].
    change (Str.join ", " (e :: x :: es))
      with (e ++ String "," (String " " (Str.join ", " (x :: es)))).
    rewrite (split_app_sep _ _ He).
    change (Str.split "," (String " " (Str.join ", " (x :: es))))
      with (match Str.split "," (Str.join ", " (x :: es)) with
            | piece :: pieces => String " " piece :: pieces
            | [] => [String " " ""]
            end).
    by rewrite (IH x Hes).
Qed.

Lemma strip_cons_space (x : string) : Str.strip (String " " x) = Str.strip x.
Proof. reflexivity. Qed.

End JoinSplit.

(** X18: splitting a specialization value at its commas and trimming the
    pieces, as the summary does, gives back the trimmed entries the row
    extractor joined, provided no entry has a comma in it; the summary then
    counts the distinct trimmed entries of the row.  A row without entries
    is the exception: its value is the empty string, which splits into one
    empty piece, so the summary counts one specialization for it. *)
Theorem split_join_round_trip (entries : list string) :
  Forall (fun entry => Str.count Spec.is_comma entry = 0) entries ->
  Str.strip <$> Str.split "," (Str.join ", " entries)
  = match entries with
    | [] => [""]
    | _ :: _ => Str.strip <$> entries
    end
  /\ Report.specialization_set [Str.join ", " entries]
     = match entries with
       | [] => {[ "" ]}
       | _ :: _ => list_to_set (Str.strip <$> entries)
       end.
Proof.
  intros Hentries. destruct entries as [|e es].
  { split; [done|]. apply set_eq. intros x.
    unfold Report.specialization_set.
    rewrite elem_of_list_to_set, elem_of_singleton.
    change ([Str.join ", " []]
              ≫= fun specs => Str.strip <$> Str.split "," specs)
      with [""].
    by rewrite list_elem_of_singleton. }
  assert (Str.strip <$> Str.split "," (Str.join ", " (e :: es))
          = Str.strip <$> e :: es) as Heq.
  { rewrite (split_join e es Hentries), !fmap_cons. f_equal.
    rewrite <- list_fmap_compose. apply list_fmap_ext.
    intros i x _. apply strip_cons_space. }
  split; [done|].
  unfold Report.specialization_set.
  rewrite bind_cons, Heq. f_equal. apply app_nil_r.
Qed.

Lemma split_join_round_trip_witness :
  Str.strip <$> Str.split "," (Str.join ", " ["CT"; "MRI"; "ct"])
  = Str.strip <$> ["CT"; "MRI"; "ct"]
  /\ Report.specialization_set [Str.join ", " ["CT"; "MRI"; "ct"]]
     = list_to_set (Str.strip <$> ["CT"; "MRI"; "ct"]).
Proof.
  apply (split_join_round_trip ["CT"; "MRI"; "ct"]).
  repeat constructor.
Defined.
